(** * Family Office News Tracker (app.py): fetch, filter, store and read back

    A shallow embedding of [app.py].  The Python functions become functions
    of a small state-and-exception monad over the SQLite table [news] and
    the outside world (clock, feed provider); the library calls the script
    relies on ([datetime], [str.strip], [quote_plus], SQLite's [INSERT],
    [SELECT ... ORDER BY ... LIMIT]) are written out next to them. *)

From Stdlib Require Import ZArith List String Ascii Bool Lia DecimalString.
From Stdlib Require Import Sorting.Sorted Sorting.Permutation.
Import ListNotations.

Local Open Scope string_scope.
Local Open Scope list_scope.
Local Open Scope Z_scope.

(** ** Exceptions and results *)

Inductive exn : Type :=
| ValueError
| TypeError
| OverflowError
| IntegrityError.

Inductive result (A : Type) : Type :=
| Ok (a : A)
| Raise (e : exn).

Arguments Ok {A} a.
Arguments Raise {A} e.

(** ** Python's [datetime], as far as the script uses it *)

Module DateTime.

(** The script only ever attaches [timezone.utc]; [None] is a naive
    datetime. *)
Inductive tz : Type := UTC.

Record datetime : Type := mkdt {
  year : Z; month : Z; day : Z;
  hour : Z; minute : Z; second : Z; microsecond : Z;
  tzinfo : option tz
}.

Definition is_leap (y : Z) : bool :=
  (y mod 4 =? 0) && (negb (y mod 100 =? 0) || (y mod 400 =? 0)).

Definition days_in_month (y m : Z) : Z :=
  if (m =? 2) && is_leap y then 29
  else nth (Z.to_nat m) [-1; 31; 28; 31; 30; 31; 30; 31; 31; 30; 31; 30; 31] (-1).

Definition days_before_month (y m : Z) : Z :=
  nth (Z.to_nat m) [-1; 0; 31; 59; 90; 120; 151; 181; 212; 243; 273; 304; 334] (-1)
  + (if (2 <? m) && is_leap y then 1 else 0).

Definition days_before_year (y : Z) : Z :=
  let y1 := y - 1 in y1 * 365 + y1 / 4 - y1 / 100 + y1 / 400.

Definition MINYEAR : Z := 1.
Definition MAXYEAR : Z := 9999.
Definition MAXORDINAL : Z := 3652059.

(** The range checks of the [datetime] constructor. *)
Definition check_date_fields (y m d : Z) : bool :=
  (MINYEAR <=? y) && (y <=? MAXYEAR) &&
  (1 <=? m) && (m <=? 12) &&
  (1 <=? d) && (d <=? days_in_month y m).

Definition check_time_fields (h mi s us : Z) : bool :=
  (0 <=? h) && (h <=? 23) && (0 <=? mi) && (mi <=? 59) &&
  (0 <=? s) && (s <=? 59) && (0 <=? us) && (us <=? 999999).

Definition valid (d : datetime) : bool :=
  check_date_fields (year d) (month d) (day d) &&
  check_time_fields (hour d) (minute d) (second d) (microsecond d).

(** [datetime(y, m, d, h, mi, s, us, tzinfo=t)]: [ValueError] on a field
    out of range. *)
Definition datetime_new (y m d h mi s us : Z) (t : option tz) : result datetime :=
  if check_date_fields y m d && check_time_fields h mi s us
  then Ok (mkdt y m d h mi s us t)
  else Raise ValueError.

(** [datetime( *args, tzinfo=timezone.utc)] for a list of positional
    arguments: year, month and day are required ([TypeError] when one is
    missing), the time fields default to zero, and the constructor takes at
    most eight positional arguments. *)
Definition datetime_of_args (args : list Z) : result datetime :=
  match args with
  | y :: m :: d :: rest =>
      match rest with
      | [] => datetime_new y m d 0 0 0 0 (Some UTC)
      | [h] => datetime_new y m d h 0 0 0 (Some UTC)
      | [h; mi] => datetime_new y m d h mi 0 0 (Some UTC)
      | [h; mi; s] => datetime_new y m d h mi s 0 (Some UTC)
      | [h; mi; s; us] => datetime_new y m d h mi s us (Some UTC)
      | _ => Raise TypeError
      end
  | _ => Raise TypeError
  end.

Definition replace_tzinfo (d : datetime) (t : option tz) : datetime :=
  mkdt (year d) (month d) (day d) (hour d) (minute d) (second d)
       (microsecond d) t.

(** Proleptic Gregorian ordinal of a date and back. *)
Definition ymd2ord (y m d : Z) : Z :=
  days_before_year y + days_before_month y m + d.

Definition DI400Y : Z := 146097.
Definition DI100Y : Z := 36524.
Definition DI4Y : Z := 1461.

Definition ord2ymd (n0 : Z) : Z * Z * Z :=
  let n := n0 - 1 in
  let n400 := n / DI400Y in
  let n := n mod DI400Y in
  let y := n400 * 400 + 1 in
  let n100 := n / DI100Y in
  let n := n mod DI100Y in
  let n4 := n / DI4Y in
  let n := n mod DI4Y in
  let n1 := n / 365 in
  let n := n mod 365 in
  let y := y + n100 * 100 + n4 * 4 + n1 in
  if (n1 =? 4) || (n100 =? 4) then (y - 1, 12, 31)
  else
    let leapyear := (n1 =? 3) && (negb (n4 =? 24) || (n100 =? 3)) in
    let m := Z.shiftr (n + 50) 5 in
    let preceding :=
      nth (Z.to_nat m) [-1; 0; 31; 59; 90; 120; 151; 181; 212; 243; 273; 304; 334] (-1)
      + (if (2 <? m) && leapyear then 1 else 0) in
    if n <? preceding then
      let m' := m - 1 in
      let preceding' :=
        preceding
        - (nth (Z.to_nat m') [-1; 31; 28; 31; 30; 31; 30; 31; 31; 30; 31; 30; 31] (-1)
           + (if (m' =? 2) && leapyear then 1 else 0)) in
      (y, m', n - preceding' + 1)
    else (y, m, n - preceding + 1).

(** [d - timedelta(days=n)]: the date moves by whole days, the time of day
    and the time zone stay; [OverflowError] outside years 1..9999. *)
Definition sub_days (d : datetime) (n : Z) : result datetime :=
  let days := ymd2ord (year d) (month d) (day d) - n in
  if (0 <? days) && (days <=? MAXORDINAL) then
    let '(y, m, dd) := ord2ymd days in
    datetime_new y m dd (hour d) (minute d) (second d) (microsecond d) (tzinfo d)
  else Raise OverflowError.

(** Field-wise order, the order of instants for two datetimes of the same
    time zone. *)
Definition lex (c1 c2 : comparison) : comparison :=
  match c1 with Eq => c2 | _ => c1 end.

Definition compare_fields (a b : datetime) : comparison :=
  lex (year a ?= year b)
 (lex (month a ?= month b)
 (lex (day a ?= day b)
 (lex (hour a ?= hour b)
 (lex (minute a ?= minute b)
 (lex (second a ?= second b)
      (microsecond a ?= microsecond b)))))).

(** [a < b]: comparing a naive with an aware datetime raises
    [TypeError]. *)
Definition lt (a b : datetime) : result bool :=
  match tzinfo a, tzinfo b with
  | Some UTC, Some UTC | None, None =>
      Ok (match compare_fields a b with Lt => true | _ => false end)
  | _, _ => Raise TypeError
  end.

(** Decimal digits, zero padded to a fixed width ([%02d], [%04d],
    [%06d]), put in front of [tail]. *)
Definition digit (n : Z) : ascii := ascii_of_nat (48 + Z.to_nat n).

Fixpoint pad_digits (k : nat) (n : Z) (tail : string) : string :=
  match k with
  | O => tail
  | S k' => pad_digits k' (n / 10) (String (digit (n mod 10)) tail)
  end.

Definition utcoffset_suffix (t : option tz) : string :=
  match t with
  | Some UTC => "+00:00"
  | None => ""
  end.

(** [d.isoformat()]: [YYYY-MM-DDTHH:MM:SS[.ffffff][+00:00]]; the fraction
    is printed only when the microsecond is not zero. *)
Definition isoformat (d : datetime) : string :=
  pad_digits 4 (year d) (String "-"
 (pad_digits 2 (month d) (String "-"
 (pad_digits 2 (day d) (String "T"
 (pad_digits 2 (hour d) (String ":"
 (pad_digits 2 (minute d) (String ":"
 (pad_digits 2 (second d)
    (if microsecond d =? 0 then utcoffset_suffix (tzinfo d)
     else String "." (pad_digits 6 (microsecond d)
                        (utcoffset_suffix (tzinfo d)))))))))))))).

End DateTime.

Import DateTime.

(** ** Strings: [str.strip] and [urllib.parse.quote_plus]

    A text is the string of the bytes of its UTF-8 encoding. *)

(** White space in the sense of [str.isspace].  On one byte: tab to
    carriage return, the four separators 28..31 and the blank. *)
Definition is_space (c : ascii) : bool :=
  let n := Z.of_nat (nat_of_ascii c) in
  ((9 <=? n) && (n <=? 13)) || ((28 <=? n) && (n <=? 32)).

(** On two bytes: U+0085 and U+00A0. *)
Definition is_space2 (c1 c2 : ascii) : bool :=
  let n1 := Z.of_nat (nat_of_ascii c1) in
  let n2 := Z.of_nat (nat_of_ascii c2) in
  (n1 =? 194) && ((n2 =? 133) || (n2 =? 160)).

(** On three bytes: U+1680, U+2000..U+200A, U+2028, U+2029, U+202F, U+205F
    and U+3000. *)
Definition is_space3 (c1 c2 c3 : ascii) : bool :=
  let n1 := Z.of_nat (nat_of_ascii c1) in
  let n2 := Z.of_nat (nat_of_ascii c2) in
  let n3 := Z.of_nat (nat_of_ascii c3) in
  ((n1 =? 225) && (n2 =? 154) && (n3 =? 128))
  || ((n1 =? 226) && (n2 =? 128)
      && (((128 <=? n3) && (n3 <=? 138))
          || (n3 =? 168) || (n3 =? 169) || (n3 =? 175)))
  || ((n1 =? 226) && (n2 =? 129) && (n3 =? 159))
  || ((n1 =? 227) && (n2 =? 128) && (n3 =? 128)).

(** The text after its first character, when that is white space. *)
Definition drop_space (s : string) : option string :=
  match s with
  | EmptyString => None
  | String c1 s1 =>
      if is_space c1 then Some s1
      else
        match s1 with
        | EmptyString => None
        | String c2 s2 =>
            if is_space2 c1 c2 then Some s2
            else
              match s2 with
              | EmptyString => None
              | String c3 s3 => if is_space3 c1 c2 c3 then Some s3 else None
              end
        end
  end.

Fixpoint lstrip (s : string) : string :=
  match s with
  | EmptyString => EmptyString
  | String c1 s1 =>
      if is_space c1 then lstrip s1
      else
        match s1 with
        | EmptyString => s
        | String c2 s2 =>
            if is_space2 c1 c2 then lstrip s2
            else
              match s2 with
              | EmptyString => s
              | String c3 s3 => if is_space3 c1 c2 c3 then lstrip s3 else s
              end
        end
  end.

(** A text of white space only. *)
Definition blank (s : string) : bool :=
  match lstrip s with
  | EmptyString => true
  | String _ _ => false
  end.

Fixpoint rstrip (s : string) : string :=
  match s with
  | EmptyString => EmptyString
  | String c s' => if blank s then EmptyString else String c (rstrip s')
  end.

Definition strip (s : string) : string := rstrip (lstrip s).

Definition hex_digit (n : Z) : ascii :=
  if n <? 10 then ascii_of_nat (48 + Z.to_nat n)
  else ascii_of_nat (55 + Z.to_nat n).

(** Characters [quote_plus] leaves alone: letters, digits and [_.-~]. *)
Definition always_safe (c : ascii) : bool :=
  let n := Z.of_nat (nat_of_ascii c) in
  ((48 <=? n) && (n <=? 57)) || ((65 <=? n) && (n <=? 90)) ||
  ((97 <=? n) && (n <=? 122)) ||
  (n =? 95) || (n =? 46) || (n =? 45) || (n =? 126).

Fixpoint quote_plus (s : string) : string :=
  match s with
  | EmptyString => EmptyString
  | String c s' =>
      if always_safe c then String c (quote_plus s')
      else if Ascii.eqb c " " then String "+" (quote_plus s')
      else
        let n := Z.of_nat (nat_of_ascii c) in
        String "%" (String (hex_digit (n / 16))
                      (String (hex_digit (n mod 16)) (quote_plus s')))
  end.

(** ** The table [news] and the outside world *)

(** A row of [news], columns in the order of [CREATE TABLE]. *)
Record row : Type := mkrow {
  id : Z;
  family_office : string;
  title : string;
  link : string;
  published : string;
  source : string
}.

(** One of the dictionaries [fetch_news_google] returns, keys in the order
    they are written. *)
Record article : Type := mkarticle {
  art_family_office : string;
  art_title : string;
  art_link : string;
  art_published : string;
  art_source : string
}.

(** A feed entry as [feedparser] hands it over: every key may be missing;
    the two [*_parsed] keys hold a [time.struct_time], a tuple of
    integers. *)
Record entry : Type := mkentry {
  e_title : option string;
  e_link : option string;
  e_published_parsed : option (list Z);
  e_updated_parsed : option (list Z);
  e_published : option string
}.

Record feed : Type := mkfeed {
  bozo : bool;
  entries : list entry
}.

(** What [pd.to_datetime(...).to_pydatetime()] hands back: a datetime, or
    pandas' [NaT], the time that is none, which it gives for texts such as
    [nan] and [NaT]. *)
Inductive timestamp : Type :=
| At (d : datetime)
| NaT.

(** What the script does not control.  Every reading of the clock and every
    request to the provider advances the world's [tick]; the answer depends
    on it. *)
Record platform : Type := mkplatform {
  (** the fields [datetime.now] reads off the system clock *)
  clock : nat -> datetime;
  (** [feedparser.parse(url)] *)
  feedparser_parse : nat -> string -> feed;
  (** what [pd.to_datetime] reads off a text: an instant, by its fields in
      UTC, or [NaT]; an exception when it cannot read the text *)
  to_datetime : string -> result timestamp;
  (** [astimezone] reads a naive datetime as local time *)
  local_to_utc : datetime -> datetime
}.

Record world : Type := mkworld {
  news : list row;
  tick : nat
}.

(** ** State and exceptions *)

Definition M (A : Type) : Type := world -> result A * world.

Definition ret {A : Type} (a : A) : M A := fun w => (Ok a, w).

Definition raise {A : Type} (e : exn) : M A := fun w => (Raise e, w).

Definition lift {A : Type} (r : result A) : M A := fun w => (r, w).

Definition bind {A B : Type} (m : M A) (f : A -> M B) : M B :=
  fun w =>
    match m w with
    | (Ok a, w') => f a w'
    | (Raise e, w') => (Raise e, w')
    end.

(** [try: body except ...: handler] *)
Definition try_except {A : Type} (body : M A) (handler : exn -> M A) : M A :=
  fun w =>
    match body w with
    | (Ok a, w') => (Ok a, w')
    | (Raise e, w') => handler e w'
    end.

Declare Scope monad_scope.
Delimit Scope monad_scope with monad.
Notation "x <- m ;; k" := (bind m (fun x => k))
  (at level 100, m at next level, right associativity) : monad_scope.
Notation "m ;;; k" := (bind m (fun _ => k))
  (at level 100, right associativity) : monad_scope.
Local Open Scope monad_scope.

(** ** SQLite statements of the script *)

(** The row id SQLite gives a new row: one more than the largest in the
    table, 1 in an empty table. *)
Definition next_rowid (t : list row) : Z :=
  fold_right (fun r acc => Z.max (id r) acc) 0 t + 1.

Definition link_taken (l : string) (t : list row) : bool :=
  existsb (fun r => String.eqb (link r) l) t.

(** [INSERT INTO news (family_office, title, link, published, source)
    VALUES (?, ?, ?, ?, ?)] under [link TEXT UNIQUE]: a taken link raises
    [IntegrityError] and leaves the table as it was. *)
Definition sql_insert (fo ttl lnk pub src : string) : M unit :=
  fun w =>
    if link_taken lnk (news w) then (Raise IntegrityError, w)
    else (Ok tt,
          mkworld (news w ++ [mkrow (next_rowid (news w)) fo ttl lnk pub src])
                  (tick w)).

(** [ORDER BY published DESC]: text compared byte by byte; rows of equal
    text stay in row id order, as the scan of [idx_news_published] yields
    them. *)
Fixpoint insert_desc (r : row) (l : list row) : list row :=
  match l with
  | [] => [r]
  | x :: l' =>
      if (published x <=? published r)%string then r :: x :: l'
      else x :: insert_desc r l'
  end.

Definition order_by_published_desc (l : list row) : list row :=
  fold_right insert_desc [] l.

(** [LIMIT n]: a negative [n] means no limit. *)
Definition sql_limit (n : Z) (l : list row) : list row :=
  if n <? 0 then l else firstn (Z.to_nat n) l.

(** [SELECT * FROM news WHERE published >= ? ORDER BY published DESC
    LIMIT ?] *)
Definition sql_select_recent (from : string) (n : Z) (t : list row) : list row :=
  sql_limit n
    (order_by_published_desc
       (filter (fun r => (from <=? published r)%string) t)).

(** ** The script *)

Definition GOOGLE_NEWS_SUFFIX : string := "hl=en-PH&gl=PH&ceid=PH:en".

Definition DEFAULT_FAMILY_OFFICES : list string :=
  ["Rockefeller Capital Management"; "Cascade Investment"; "Blue Pool Capital"].

(** The module's global: bound once, when the script's top level runs. *)
Record globals : Type := mkglobals {
  NEWS_CUTOFF_DATE : datetime
}.

(** An argument with a default value: [None] when the caller leaves it
    out. *)
Definition with_default {A : Type} (default : A) (arg : option A) : A :=
  match arg with
  | Some a => a
  | None => default
  end.

(** [xs[:n]] *)
Definition slice_to {A : Type} (n : Z) (xs : list A) : list A :=
  if n <? 0 then firstn (Z.to_nat (Z.of_nat (List.length xs) + n)) xs
  else firstn (Z.to_nat n) xs.

(** Truth value of [entry.get(key)]: a missing key, [None], an empty tuple
    and an empty string are false. *)
Definition truthy_tuple (v : option (list Z)) : option (list Z) :=
  match v with
  | Some (x :: l) => Some (x :: l)
  | _ => None
  end.

Definition truthy_text (v : option string) : option string :=
  match v with
  | Some (String c s) => Some (String c s)
  | _ => None
  end.

Inductive time_key : Type := published_parsed | updated_parsed.

Definition entry_get (e : entry) (key : time_key) : option (list Z) :=
  match key with
  | published_parsed => e_published_parsed e
  | updated_parsed => e_updated_parsed e
  end.

Section App.

Variable P : platform.

(** [datetime.now(timezone.utc)] *)
Definition datetime_now_utc : M datetime :=
  fun w => (Ok (replace_tzinfo (clock P (tick w)) (Some UTC)),
            mkworld (news w) (S (tick w))).

(** [d.astimezone(timezone.utc)] *)
Definition astimezone_utc (d : datetime) : datetime :=
  match tzinfo d with
  | Some UTC => d
  | None => replace_tzinfo (local_to_utc P d) (Some UTC)
  end.

(** Line 24: [NEWS_CUTOFF_DATE = datetime.now(timezone.utc) -
    timedelta(days=60)]. *)
Definition load_globals : M globals :=
  now <- datetime_now_utc ;;
  cutoff <- lift (sub_days now 60) ;;
  ret (mkglobals cutoff).

(** [CREATE TABLE IF NOT EXISTS], [CREATE INDEX IF NOT EXISTS]: the rows
    of an existing table are left alone. *)
Definition init_db : M unit := ret tt.

Definition save_article (fo ttl lnk published_iso src : string) : M unit :=
  try_except
    (sql_insert fo ttl lnk published_iso src)
    (fun e => match e with
              | IntegrityError => ret tt
              | _ => raise e
              end).

Definition clear_all_news : M unit :=
  fun w => (Ok tt, mkworld [] (tick w)).

Definition fetch_all_news (g : globals) (limit : option Z) : M (list row) :=
  fun w =>
    (Ok (sql_select_recent (isoformat (NEWS_CUTOFF_DATE g))
                           (with_default 100 limit) (news w)),
     w).

(** The loop over the two structured keys; [rest] is what follows the
    loop. *)
Fixpoint parse_entry_keys (e : entry) (keys : list time_key)
         (rest : M timestamp) : M timestamp :=
  match keys with
  | [] => rest
  | key :: keys' =>
      match truthy_tuple (entry_get e key) with
      | Some t =>
          try_except (d <- lift (datetime_of_args (firstn 6 t)) ;; ret (At d))
                     (fun _ => parse_entry_keys e keys' rest)
      | None => parse_entry_keys e keys' rest
      end
  end.

(** [pd.to_datetime(text, utc=True).to_pydatetime()]: with [utc=True] an
    instant comes back aware, in UTC; [NaT] comes back as it is. *)
Definition to_datetime_utc (text : string) : result timestamp :=
  match to_datetime P text with
  | Ok (At d) => Ok (At (replace_tzinfo d (Some UTC)))
  | Ok NaT => Ok NaT
  | Raise e => Raise e
  end.

(** The last line of the normalizer: [return datetime.now(timezone.utc)]. *)
Definition return_now : M timestamp :=
  now <- datetime_now_utc ;; ret (At now).

Definition parse_entry_published (e : entry) : M timestamp :=
  parse_entry_keys e [published_parsed; updated_parsed]
    (match truthy_text (e_published e) with
     | Some text =>
         try_except (lift (to_datetime_utc text))
                    (fun _ => return_now)
     | None => return_now
     end).

(** [published_dt < NEWS_CUTOFF_DATE]: every comparison with [NaT] is
    false. *)
Definition timestamp_lt (t : timestamp) (d : datetime) : result bool :=
  match t with
  | At a => DateTime.lt a d
  | NaT => Ok false
  end.

(** [published_dt.astimezone(timezone.utc)]: [NaT] does not support it and
    raises [ValueError]. *)
Definition timestamp_astimezone_utc (t : timestamp) : result datetime :=
  match t with
  | At a => Ok (astimezone_utc a)
  | NaT => Raise ValueError
  end.

(** The inner loop, over the entries of one feed. *)
Fixpoint fetch_entries (g : globals) (fo : string) (es : list entry)
         (results : list article) : M (list article) :=
  match es with
  | [] => ret results
  | e :: es' =>
      let ttl := strip (with_default "" (e_title e)) in
      let lnk := strip (with_default "" (e_link e)) in
      published_dt <- parse_entry_published e ;;
      older <- lift (timestamp_lt published_dt (NEWS_CUTOFF_DATE g)) ;;
      if older : bool then fetch_entries g fo es' results
      else
        in_utc <- lift (timestamp_astimezone_utc published_dt) ;;
        let published_iso := isoformat (replace_tzinfo in_utc (Some UTC)) in
        let src := "Google News" in
        save_article fo ttl lnk published_iso src ;;;
        fetch_entries g fo es'
          (results ++ [mkarticle fo ttl lnk published_iso src])
  end.

Definition feed_url (fo : string) : string :=
  ("https://news.google.com/rss/search?q=" ++ quote_plus fo ++ "&"
   ++ GOOGLE_NEWS_SUFFIX)%string.

Definition request_feed (url : string) : M feed :=
  fun w => (Ok (feedparser_parse P (tick w) url),
            mkworld (news w) (S (tick w))).

(** The outer loop, over the tracked names. *)
Fixpoint fetch_offices (g : globals) (family_offices : list string)
         (per_office : Z) (results : list article) : M (list article) :=
  match family_offices with
  | [] => ret results
  | fo :: rest =>
      f <- request_feed (feed_url fo) ;;
      if bozo f then fetch_offices g rest per_office results
      else
        results' <- fetch_entries g fo (slice_to per_office (entries f)) results ;;
        fetch_offices g rest per_office results'
  end.

Definition fetch_news_google (g : globals) (family_offices : list string)
           (per_office : option Z) : M (list article) :=
  fetch_offices g family_offices (with_default 20 per_office) [].

(** What the page's widgets hold when the script runs. *)
Record ui_input : Type := mkui {
  family_offices_input : string;
  fetch_clicked : bool;
  clear_clicked : bool
}.

(** [s.split("\n")] *)
Fixpoint split_lines (s : string) : list string :=
  match s with
  | EmptyString => [EmptyString]
  | String c s' =>
      if Ascii.eqb c (ascii_of_nat 10) then EmptyString :: split_lines s'
      else
        match split_lines s' with
        | h :: t => String c h :: t
        | [] => [String c EmptyString]
        end
  end.

Definition nonempty (s : string) : bool :=
  match s with
  | EmptyString => false
  | String _ _ => true
  end.

Definition tracked_offices (ui : ui_input) : list string :=
  let offices_raw := strip (family_offices_input ui) in
  if nonempty offices_raw
  then map strip (filter (fun fo => nonempty (strip fo)) (split_lines offices_raw))
  else DEFAULT_FAMILY_OFFICES.

(** One run of the script, top to bottom; the value is the table the page
    shows. *)
Definition script (ui : ui_input) : M (list row) :=
  g <- load_globals ;;
  (init_db ;;;
  ((if clear_clicked ui then clear_all_news else ret tt) ;;;
  ((if fetch_clicked ui
    then (fetch_news_google g (tracked_offices ui) None ;;; ret tt)
    else ret tt) ;;;
  fetch_all_news g (Some 200)))).

(** Script runs one after the other: the table and the world carry over,
    whether or not a run ended in an exception. *)
Fixpoint script_runs (uis : list ui_input) (w : world) : world :=
  match uis with
  | [] => w
  | ui :: rest => script_runs rest (snd (script ui w))
  end.

End App.

(** ** What a run does, step by step

    The normalizer and the two loops of the fetch, written as the design
    notes describe them, with the one answer of the text parser the notes
    do not have: [NaT].  The definitions read the clock through the tick at
    which a step starts and hand the next tick on; the theorems relate the
    code to them. *)

Section Design.

Variable P : platform.

(** A structured time breakdown that is present and builds a timestamp. *)
Definition structured_time (v : option (list Z)) : option datetime :=
  match truthy_tuple v with
  | Some t =>
      match datetime_of_args (firstn 6 t) with
      | Ok d => Some d
      | Raise _ => None
      end
  | None => None
  end.

(** A free-text time that is present and that the parser reads: as an
    instant, or as [NaT]. *)
Definition free_text_time (v : option string) : option timestamp :=
  match truthy_text v with
  | Some text =>
      match to_datetime P text with
      | Ok (At d) => Some (At (replace_tzinfo d (Some UTC)))
      | Ok NaT => Some NaT
      | Raise _ => None
      end
  | None => None
  end.

(** The ordered fallback: published breakdown, updated breakdown, free
    text, the current instant. *)
Definition timestamp_chain (e : entry) (k : nat) : timestamp * nat :=
  match structured_time (e_published_parsed e) with
  | Some d => (At d, k)
  | None =>
      match structured_time (e_updated_parsed e) with
      | Some d => (At d, k)
      | None =>
          match free_text_time (e_published e) with
          | Some t => (t, k)
          | None => (At (replace_tzinfo (clock P k) (Some UTC)), S k)
          end
      end
  end.

(** The cutoff filter: at or after the window start. *)
Definition in_window (start d : datetime) : bool :=
  match compare_fields d start with
  | Lt => false
  | _ => true
  end.

Definition article_of (fo : string) (e : entry) (d : datetime) : article :=
  mkarticle fo (strip (with_default "" (e_title e)))
            (strip (with_default "" (e_link e)))
            (isoformat d) "Google News".

(** How far a fetch gets: the entries that passed the filter, in the order
    they were met, the tick it ended at, and whether it came to its end.
    It does not when it meets an entry dated [NaT]. *)
Record progress : Type := mkprogress {
  passed : list article;
  ended_at : nat;
  completed : bool
}.

(** Over the entries of one feed. *)
Fixpoint passing_entries (start : datetime) (fo : string) (es : list entry)
         (k : nat) : progress :=
  match es with
  | [] => mkprogress [] k true
  | e :: es' =>
      match timestamp_chain e k with
      | (NaT, k1) => mkprogress [] k1 false
      | (At d, k1) =>
          let rest := passing_entries start fo es' k1 in
          if in_window start d
          then mkprogress (article_of fo e d :: passed rest) (ended_at rest)
                          (completed rest)
          else rest
      end
  end.

(** Over the tracked names: a malformed feed contributes nothing, a
    well-formed one its first [cap] entries. *)
Fixpoint passing_offices (start : datetime) (offices : list string)
         (cap : Z) (k : nat) : progress :=
  match offices with
  | [] => mkprogress [] k true
  | fo :: rest =>
      let f := feedparser_parse P k (feed_url fo) in
      if bozo f then passing_offices start rest cap (S k)
      else
        let here :=
          passing_entries start fo (slice_to cap (entries f)) (S k) in
        if completed here then
          let later := passing_offices start rest cap (ended_at here) in
          mkprogress (passed here ++ passed later) (ended_at later)
                     (completed later)
        else here
  end.

End Design.

(** Insert on conflict ignore: what [save] does to the table. *)
Definition store (t : list row) (a : article) : list row :=
  if link_taken (art_link a) t then t
  else t ++ [mkrow (next_rowid t) (art_family_office a) (art_title a)
                   (art_link a) (art_published a) (art_source a)].

Definition store_all (t : list row) (arts : list article) : list row :=
  fold_left store arts t.

(** What a loop of the fetch that got as far as [r] hands back, from the
    list [results] and the table [t]: the longer list, or the [ValueError]
    of the entry dated [NaT]; the passed entries are stored either way. *)
Definition outcome (results : list article) (t : list row) (r : progress)
  : result (list article) * world :=
  (if completed r then Ok (results ++ passed r) else Raise ValueError,
   mkworld (store_all t (passed r)) (ended_at r)).

(** The read as the design describes it: the window start taken from the
    current instant, at the time of the read. *)
Definition list_recent_at_read_time (P : platform) (limit : Z) (w : world)
  : result (list row) :=
  match sub_days (replace_tzinfo (clock P (tick w)) (Some UTC)) 60 with
  | Ok start => Ok (sql_select_recent (isoformat start) limit (news w))
  | Raise e => Raise e
  end.

(** ** Notions the statements use *)

(** The globals a run of the script's top level can bind. *)
Definition bound_at_load (P : platform) (g : globals) : Prop :=
  exists w w', load_globals P w = (Ok g, w').

(** Newest first, by the stored text. *)
Definition newer_or_equal (a b : row) : Prop :=
  (published b <=? published a)%string = true.

(** One row per link: what [link TEXT UNIQUE] keeps true of the table. *)
Definition unique_links (t : list row) : Prop := NoDup (map link t).

(** The text of a UTC-aware instant: what [isoformat] prints for one, with
    its explicit offset at the end. *)
Definition utc_text (s : string) : Prop :=
  exists d, tzinfo d = Some UTC /\ s = isoformat d
            /\ exists body, s = (body ++ "+00:00")%string.

(** A computation that leaves in the table only rows that were there or
    rows whose [published] is the text of a UTC-aware instant. *)
Definition stamps_utc {A : Type} (m : M A) : Prop :=
  forall w r, In r (news (snd (m w))) ->
              In r (news w) \/ utc_text (published r).

(** The stored text [s] stands for the valid UTC instant [d]. *)
Definition published_at (r : row) (d : datetime) : Prop :=
  valid d = true /\ tzinfo d = Some UTC /\ published r = isoformat d.

(** The same outside world, with a provider that hands over only the first
    [n] entries of every feed. *)
Definition first_entries_only (n : nat) (P : platform) : platform :=
  mkplatform (clock P)
             (fun k url =>
                let f := feedparser_parse P k url in
                mkfeed (bozo f) (firstn n (entries f)))
             (to_datetime P) (local_to_utc P).

(** ** A provider, a clock and a table to run the script on *)

Module Demo.

(** Noon of 1 March 2024 and a quarter of a millisecond; each tick is a
    second later. *)
Definition clock (k : nat) : datetime :=
  mkdt 2024 3 1 12 (Z.of_nat k / 60 mod 60) (Z.of_nat k mod 60) 250 None.

Definition entry_5_days : entry :=
  mkentry (Some " Acme Capital buys a stake ") (Some "https://x/1")
          (Some [2024; 2; 25; 12; 0; 0; 6; 56; 0]) None
          (Some "Sun, 25 Feb 2024 12:00:00 GMT").

Definition entry_70_days : entry :=
  mkentry (Some "Acme Capital opens an office") (Some "https://x/2")
          (Some [2023; 12; 22; 12; 0; 0; 4; 356; 0]) None
          (Some "Fri, 22 Dec 2023 12:00:00 GMT").

Definition entry_10_days : entry :=
  mkentry (Some "Acme Capital hires") (Some "https://x/3")
          (Some [2024; 2; 20; 12; 0; 0; 1; 51; 0]) None
          (Some "Tue, 20 Feb 2024 12:00:00 GMT").

(** An entry without any time: the normalizer falls back on the clock. *)
Definition entry_undated : entry :=
  mkentry (Some "Borealis Trust") (Some "https://x/4") None None None.

(** An entry whose breakdown does not build (month 13) and whose text
    parses. *)
Definition entry_text_only : entry :=
  mkentry (Some "Borealis Trust expands") (Some "https://x/5")
          (Some [2024; 13; 1; 0; 0; 0; 0; 1; 0]) None
          (Some "2024-02-20 12:00").

(** Two entries dated by their text alone: at the cutoff of a load at
    tick 0, and a microsecond before it. *)
Definition entry_at_cutoff : entry :=
  mkentry (Some "On the boundary") (Some "https://x/0") None None
          (Some "2024-01-01 12:00:00.000250").

Definition entry_just_older : entry :=
  mkentry (Some "Just too old") (Some "https://x/9") None None
          (Some "2024-01-01 12:00:00.000249").

(** An entry without a breakdown whose text the parser reads as [NaT]. *)
Definition entry_nan : entry :=
  mkentry (Some "Nan Holdings") (Some "https://x/7") None None (Some "nan").

Definition feeds (k : nat) (url : string) : feed :=
  if String.eqb url (feed_url "Acme Capital")
  then mkfeed false [entry_5_days; entry_70_days; entry_10_days]
  else if String.eqb url (feed_url "Broken Office")
  then mkfeed true [entry_undated]
  else if String.eqb url (feed_url "Borealis Trust")
  then mkfeed false [entry_undated; entry_text_only]
  else if String.eqb url (feed_url "Cutoff Partners")
  then mkfeed false [entry_just_older; entry_at_cutoff]
  else if String.eqb url (feed_url "Nan Holdings")
  then mkfeed false [entry_5_days; entry_nan; entry_10_days]
  else mkfeed false [].

Definition to_datetime (text : string) : result timestamp :=
  if String.eqb text "2024-02-20 12:00"
  then Ok (At (mkdt 2024 2 20 12 0 0 0 None))
  else if String.eqb text "2024-01-01 12:00:00.000250"
  then Ok (At (mkdt 2024 1 1 12 0 0 250 None))
  else if String.eqb text "2024-01-01 12:00:00.000249"
  then Ok (At (mkdt 2024 1 1 12 0 0 249 None))
  else if String.eqb text "nan"
  then Ok NaT
  else Raise ValueError.

Definition platform : platform :=
  mkplatform clock feeds to_datetime (fun d => d).

(** The cutoff a load at tick 0 binds: 1 January 2024, same time of
    day. *)
Definition cutoff : datetime := mkdt 2024 1 1 12 0 0 250 (Some UTC).

Definition globals : globals := mkglobals cutoff.

Definition row_5_days : row :=
  mkrow 1 "Acme Capital" "Acme Capital buys a stake" "https://x/1"
        "2024-02-25T12:00:00+00:00" "Google News".

Definition article_5_days : article :=
  mkarticle "Acme Capital" "Acme Capital buys a stake" "https://x/1"
            "2024-02-25T12:00:00+00:00" "Google News".

Definition row_just_older : row :=
  mkrow 2 "Acme Capital" "Just too old" "https://x/9"
        "2024-01-01T12:00:00.000249+00:00" "Google News".

(** U+00A0 NO-BREAK SPACE and U+3000 IDEOGRAPHIC SPACE, in UTF-8. *)
Definition no_break_space : string :=
  String (ascii_of_nat 194) (String (ascii_of_nat 160) EmptyString).

Definition ideographic_space : string :=
  String (ascii_of_nat 227)
         (String (ascii_of_nat 128) (String (ascii_of_nat 128) EmptyString)).

(** A row published at the cutoff, to the microsecond. *)
Definition row_at_cutoff : row :=
  mkrow 1 "Acme Capital" "On the boundary" "https://x/0"
        "2024-01-01T12:00:00.000250+00:00" "Google News".

End Demo.

(** ** Relations between the table before and after a computation *)

(** [m] takes every table to one that is [R]-related to it, whether it
    returns or raises. *)
Definition steps (R : list row -> list row -> Prop) {A : Type} (m : M A)
  : Prop :=
  forall w, R (news w) (news (snd (m w))).

(** The table has only grown at its end, by rows whose links it did not
    hold. *)
Definition appends_new (t t' : list row) : Prop :=
  exists more, t' = t ++ more
               /\ forall r, In r more -> link_taken (link r) t = false.

Definition keeps_unique_links (t t' : list row) : Prop :=
  unique_links t -> unique_links t'.

(** The rows of the table at or after the window start. *)
Definition recent_rows (g : globals) (t : list row) : list row :=
  filter (fun r => (isoformat (NEWS_CUTOFF_DATE g) <=? published r)%string) t.

(** A text without white space at either end: it does not start with a
    white space character, and no part of it that reaches to its end is
    made of white space only. *)
Definition trimmed (s : string) : Prop :=
  drop_space s = None
  /\ forall pre suf, s = (pre ++ suf)%string -> blank suf = true ->
                     suf = EmptyString.

(** ** Reading a quoted name back

    [urllib.parse.unquote_plus], the inverse the provider applies to the
    query: [+] is a blank, [%XX] the byte with that hexadecimal code. *)

Definition hex_value (c : ascii) : option Z :=
  let n := Z.of_nat (nat_of_ascii c) in
  if (48 <=? n) && (n <=? 57) then Some (n - 48)
  else if (65 <=? n) && (n <=? 70) then Some (n - 55)
  else if (97 <=? n) && (n <=? 102) then Some (n - 87)
  else None.

Fixpoint unquote_plus (s : string) : string :=
  match s with
  | EmptyString => EmptyString
  | String c t =>
      if Ascii.eqb c "+" then String " " (unquote_plus t)
      else if Ascii.eqb c "%" then
        match t with
        | String h (String l t') =>
            match hex_value h, hex_value l with
            | Some a, Some b =>
                String (ascii_of_nat (Z.to_nat (16 * a + b))) (unquote_plus t')
            | _, _ => String c (unquote_plus t)
            end
        | _ => String c (unquote_plus t)
        end
      else String c (unquote_plus t)
  end.

(** The characters a quoted name is made of. *)
Definition query_safe (c : ascii) : bool :=
  always_safe c || Ascii.eqb c "+" || Ascii.eqb c "%".

(** The lines of a text put together again, a line feed between them. *)
Fixpoint join_lines (lines : list string) : string :=
  match lines with
  | [] => EmptyString
  | h :: t =>
      match t with
      | [] => h
      | _ :: _ => (h ++ String (ascii_of_nat 10) (join_lines t))%string
      end
  end.

(** A text parser that never answers [NaT]. *)
Definition never_nat (P : platform) : Prop :=
  forall text, to_datetime P text <> Ok NaT.

(** A platform whose clock and whose text parser only give real calendar
    times. *)
Definition valid_platform (P : platform) : Prop :=
  (forall k, valid (clock P k) = true)
  /\ (forall text d, to_datetime P text = Ok (At d) -> valid d = true).

(** ** The calendar arithmetic of [ord2ymd], taken apart

    The month and the day of the month of the [n]-th day of a year, counted
    from 0: the last step of [ord2ymd]. *)

Definition month_day (n : Z) (leapyear : bool) : Z * Z :=
  let m := Z.shiftr (n + 50) 5 in
  let preceding :=
    nth (Z.to_nat m) [-1; 0; 31; 59; 90; 120; 151; 181; 212; 243; 273; 304; 334] (-1)
    + (if (2 <? m) && leapyear then 1 else 0) in
  if n <? preceding then
    let m' := m - 1 in
    let preceding' :=
      preceding
      - (nth (Z.to_nat m') [-1; 31; 28; 31; 30; 31; 30; 31; 31; 30; 31; 30; 31] (-1)
         + (if (m' =? 2) && leapyear then 1 else 0)) in
    (m', n - preceding' + 1)
  else (m, n - preceding + 1).

(** What [month_day] has to deliver: a month, a day of that month, and the
    day of the year they stand for. *)
Definition month_day_ok (leapyear : bool) (n : Z) : bool :=
  let '(m, d) := month_day n leapyear in
  (1 <=? m) && (m <=? 12) && (1 <=? d)
  && (d <=? (if (m =? 2) && leapyear then 29
             else nth (Z.to_nat m) [-1; 31; 28; 31; 30; 31; 30; 31; 31; 30; 31; 30; 31] (-1)))
  && (nth (Z.to_nat m) [-1; 0; 31; 59; 90; 120; 151; 181; 212; 243; 273; 304; 334] (-1)
      + (if (2 <? m) && leapyear then 1 else 0) + d =? n + 1).

(** ** The table the page shows: [df_with_clickable_links]

    A data frame: named columns over records of cells.  A cell of a frame
    read from [news] is an integer, a text or SQL's NULL. *)

Inductive cell : Type :=
| Null
| Int (z : Z)
| Text (s : string).

Record dataframe : Type := mkdf {
  df_columns : list string;
  df_records : list (list cell)
}.

(** The frame [pd.read_sql_query] makes of the rows of [SELECT *]. *)
Definition read_frame (rows : list row) : dataframe :=
  mkdf ["id"; "family_office"; "title"; "link"; "published"; "source"]
       (map (fun r => [Int (id r); Text (family_office r); Text (title r);
                       Text (link r); Text (published r); Text (source r)])
            rows).

Fixpoint column_index (name : string) (columns : list string) : option nat :=
  match columns with
  | [] => None
  | c :: columns' =>
      if String.eqb c name then Some O
      else match column_index name columns' with
           | Some i => Some (S i)
           | None => None
           end
  end.

(** Truth value of a cell: [None], 0 and the empty text are false. *)
Definition cell_truth (x : cell) : bool :=
  match x with
  | Null => false
  | Int z => negb (z =? 0)
  | Text s => nonempty s
  end.

(** [str(x)], as an f-string prints a cell. *)
Definition cell_str (x : cell) : string :=
  match x with
  | Null => "None"
  | Int z => NilZero.string_of_int (Z.to_int z)
  | Text s => s
  end.

Definition dquote : string := String (ascii_of_nat 34) EmptyString.

(** The [lambda] of line 88. *)
Definition anchor (link_label : string) (x : cell) : cell :=
  if cell_truth x
  then Text ("<a href=" ++ dquote ++ cell_str x ++ dquote ++ " target="
             ++ dquote ++ "_blank" ++ dquote ++ ">" ++ link_label ++ "</a>")
  else Text "".

Fixpoint replace_nth {A : Type} (i : nat) (v : A) (l : list A) : list A :=
  match l, i with
  | [], _ => []
  | _ :: l', O => v :: l'
  | x :: l', S i' => x :: replace_nth i' v l'
  end.

(** [df[name] = values]: an existing column is overwritten in place, a new
    one is added as the last. *)
Definition assign_column (name : string) (values : list cell) (df : dataframe)
  : dataframe :=
  match column_index name (df_columns df) with
  | Some i =>
      mkdf (df_columns df)
           (map (fun rv => replace_nth i (snd rv) (fst rv))
                (combine (df_records df) values))
  | None =>
      mkdf (df_columns df ++ [name])
           (map (fun rv => fst rv ++ [snd rv])
                (combine (df_records df) values))
  end.

(** [df[cols]] for columns the frame has. *)
Definition select_columns (cols : list string) (df : dataframe) : dataframe :=
  mkdf cols
       (map (fun record =>
               map (fun c => match column_index c (df_columns df) with
                             | Some i => nth i record Null
                             | None => Null
                             end) cols)
            (df_records df)).

(** [None] stands for the [KeyError] of [df[link_col]] on a frame without
    that column. *)
Definition df_with_clickable_links (df : dataframe)
           (link_col link_label : option string) : option dataframe :=
  match column_index (with_default "link" link_col) (df_columns df) with
  | None => None
  | Some i =>
      let article :=
        map (fun record => anchor (with_default "Read Article" link_label)
                                  (nth i record Null))
            (df_records df) in
      let df' := assign_column "article" article df in
      let cols :=
        filter (fun c => existsb (String.eqb c) (df_columns df'))
               ["family_office"; "title"; "article"; "published"; "source"] in
      Some (select_columns cols df')
  end.


(** * Properties *)

(** ** Text order of [isoformat] against the order of instants *)

Module DateTimeFacts.

Lemma lex_eq_l c : lex Eq c = c.
Proof. reflexivity. Qed.

Lemma ascii_compare_refl (c : ascii) : Ascii.compare c c = Eq.
Proof. unfold Ascii.compare. apply N.compare_refl. Qed.

Lemma string_compare_refl (s : string) : String.compare s s = Eq.
Proof.
  induction s as [|c s IH]; simpl; [reflexivity|].
  now rewrite ascii_compare_refl.
Qed.

Lemma string_compare_cons (c : ascii) (s t : string) :
  String.compare (String c s) (String c t) = String.compare s t.
Proof. simpl. now rewrite ascii_compare_refl. Qed.

Lemma digit_compare (a b : Z) :
  0 <= a < 10 -> 0 <= b < 10 ->
  Ascii.compare (digit a) (digit b) = (a ?= b).
Proof.
  intros Ha Hb.
  assert (Ea : a = 0 \/ a = 1 \/ a = 2 \/ a = 3 \/ a = 4 \/ a = 5 \/ a = 6
               \/ a = 7 \/ a = 8 \/ a = 9) by lia.
  assert (Eb : b = 0 \/ b = 1 \/ b = 2 \/ b = 3 \/ b = 4 \/ b = 5 \/ b = 6
               \/ b = 7 \/ b = 8 \/ b = 9) by lia.
  repeat (destruct Ea as [Ea|Ea]; [subst a|]); subst;
    repeat (destruct Eb as [Eb|Eb]; [subst b|]); subst; reflexivity.
Qed.

Lemma compare_base10 (a b : Z) :
  lex (a / 10 ?= b / 10) (a mod 10 ?= b mod 10) = (a ?= b).
Proof.
  pose proof (Z.div_mod a 10 ltac:(lia)) as Ea.
  pose proof (Z.div_mod b 10 ltac:(lia)) as Eb.
  pose proof (Z.mod_pos_bound a 10 ltac:(lia)) as Ba.
  pose proof (Z.mod_pos_bound b 10 ltac:(lia)) as Bb.
  destruct (Z.compare_spec (a / 10) (b / 10)) as [Hq|Hq|Hq]; simpl.
  - destruct (Z.compare_spec (a mod 10) (b mod 10)) as [Hr|Hr|Hr];
      symmetry; [apply Z.compare_eq_iff | apply Z.compare_lt_iff
                | apply Z.compare_gt_iff]; lia.
  - symmetry; apply Z.compare_lt_iff; lia.
  - symmetry; apply Z.compare_gt_iff; lia.
Qed.

(** Zero-padded decimals of one width compare like the numbers. *)
Lemma pad_digits_compare (k : nat) :
  forall (a b : Z) (s t : string),
    0 <= a < 10 ^ Z.of_nat k -> 0 <= b < 10 ^ Z.of_nat k ->
    String.compare (pad_digits k a s) (pad_digits k b t)
    = lex (a ?= b) (String.compare s t).
Proof.
  induction k as [|k IH]; intros a b s t Ha Hb.
  - simpl in Ha, Hb. assert (a = 0) by lia. assert (b = 0) by lia.
    subst. reflexivity.
  - rewrite Nat2Z.inj_succ, Z.pow_succ_r in Ha, Hb by lia.
    cbn [pad_digits].
    rewrite IH.
    2,3: split; [apply Z.div_pos; lia | apply Z.div_lt_upper_bound; lia].
    cbn [String.compare].
    rewrite digit_compare by (apply Z.mod_pos_bound; lia).
    rewrite <- (compare_base10 a b).
    destruct (a / 10 ?= b / 10); simpl; try reflexivity.
    destruct (a mod 10 ?= b mod 10); reflexivity.
Qed.

Lemma valid_fields (d : datetime) :
  valid d = true ->
  (1 <= year d <= 9999) /\ (1 <= month d <= 12) /\ (1 <= day d <= 31) /\
  (0 <= hour d <= 23) /\ (0 <= minute d <= 59) /\ (0 <= second d <= 59) /\
  (0 <= microsecond d <= 999999).
Proof.
  unfold valid, check_date_fields, check_time_fields, MINYEAR, MAXYEAR.
  rewrite !andb_true_iff, !Z.leb_le.
  intros [[[[[[Hy1 Hy2] Hm1] Hm2] Hd1] Hd2] [[[[[[[Hh1 Hh2] Hi1] Hi2] Hs1] Hs2] Hu1] Hu2]].
  repeat split; try assumption.
  assert (Hdim : days_in_month (year d) (month d) <= 31).
  { unfold days_in_month.
    destruct ((month d =? 2) && is_leap (year d)); [lia|].
    assert (Em : month d = 1 \/ month d = 2 \/ month d = 3 \/ month d = 4
                 \/ month d = 5 \/ month d = 6 \/ month d = 7 \/ month d = 8
                 \/ month d = 9 \/ month d = 10 \/ month d = 11
                 \/ month d = 12) by lia.
    repeat (destruct Em as [Em|Em]; [rewrite Em; simpl; lia|]).
    rewrite Em; simpl; lia. }
  lia.
Qed.

(** For valid datetimes of the same time zone, [isoformat] is monotone:
   the texts compare the way the instants do. *)
Lemma isoformat_compare (a b : datetime) :
  valid a = true -> valid b = true -> tzinfo a = tzinfo b ->
  String.compare (isoformat a) (isoformat b) = compare_fields a b.
Proof.
  intros Va Vb Htz.
  apply valid_fields in Va, Vb.
  destruct Va as (Ya & Ma & Da & Ha & Ia & Sa & Ua).
  destruct Vb as (Yb & Mb & Db & Hb & Ib & Sb & Ub).
  unfold isoformat, compare_fields.
  rewrite <- Htz.
  repeat (rewrite pad_digits_compare by (simpl; lia);
          try rewrite string_compare_cons;
          f_equal).
  destruct (Z.eqb_spec (microsecond a) 0) as [Ea|Ea];
    destruct (Z.eqb_spec (microsecond b) 0) as [Eb|Eb].
  - rewrite Ea, Eb. apply string_compare_refl.
  - rewrite Ea.
    replace (0 ?= microsecond b) with Lt by (symmetry; apply Z.compare_lt_iff; lia).
    destruct (tzinfo a) as [[]|]; reflexivity.
  - rewrite Eb.
    replace (microsecond a ?= 0) with Gt by (symmetry; apply Z.compare_gt_iff; lia).
    destruct (tzinfo a) as [[]|]; reflexivity.
  - rewrite string_compare_cons.
    rewrite pad_digits_compare by (simpl; lia).
    rewrite string_compare_refl.
    destruct (microsecond a ?= microsecond b); reflexivity.
Qed.

End DateTimeFacts.

(** ** What the functions of the script do to the world *)

Section Runs.

Variable P : platform.

Lemma datetime_new_ok y m d h mi s us t x :
  datetime_new y m d h mi s us t = Ok x ->
  x = mkdt y m d h mi s us t /\ valid x = true.
Proof.
  unfold datetime_new.
  destruct (check_date_fields y m d && check_time_fields h mi s us) eqn:E;
    [|discriminate].
  intros H; inversion H; subst; clear H.
  split; [reflexivity|exact E].
Qed.

Lemma datetime_of_args_aware args d :
  datetime_of_args args = Ok d -> tzinfo d = Some UTC.
Proof.
  unfold datetime_of_args.
  destruct args as [|y [|m [|dd rest]]]; try discriminate.
  destruct rest as [|h [|mi [|s [|us [|? ?]]]]]; try discriminate;
    intros H; apply datetime_new_ok in H; destruct H as [-> _]; reflexivity.
Qed.

Lemma sub_days_ok d n x :
  sub_days d n = Ok x -> tzinfo x = tzinfo d /\ valid x = true.
Proof.
  unfold sub_days.
  destruct ((0 <? ymd2ord (year d) (month d) (day d) - n)
            && (ymd2ord (year d) (month d) (day d) - n <=? MAXORDINAL));
    [|discriminate].
  destruct (ord2ymd _) as [[y m] dd].
  intros H; apply datetime_new_ok in H; destruct H as [E V].
  split; [rewrite E; reflexivity|exact V].
Qed.

Lemma bound_at_load_cutoff g :
  bound_at_load P g ->
  tzinfo (NEWS_CUTOFF_DATE g) = Some UTC /\ valid (NEWS_CUTOFF_DATE g) = true.
Proof.
  intros (w & w' & H).
  unfold load_globals, bind, datetime_now_utc, lift, ret in H.
  destruct (sub_days (replace_tzinfo (clock P (tick w)) (Some UTC)) 60)
    as [c|e] eqn:E; [|discriminate].
  inversion H; subst; clear H. simpl.
  apply sub_days_ok in E. exact E.
Qed.

Lemma structured_time_aware v d :
  structured_time v = Some d -> tzinfo d = Some UTC.
Proof.
  unfold structured_time.
  destruct (truthy_tuple v) as [t|]; [|discriminate].
  destruct (datetime_of_args (firstn 6 t)) as [x|] eqn:E; [|discriminate].
  intros H; inversion H; subst. eapply datetime_of_args_aware; eassumption.
Qed.

Lemma free_text_time_aware v d :
  free_text_time P v = Some (At d) -> tzinfo d = Some UTC.
Proof.
  unfold free_text_time.
  destruct (truthy_text v) as [t|]; [|discriminate].
  destruct (to_datetime P t) as [[x|]|]; try discriminate.
  intros H; inversion H; reflexivity.
Qed.

(** Whatever the chain dates an entry with, if it is a datetime it is
    aware, in UTC. *)
Lemma timestamp_chain_aware e k d :
  fst (timestamp_chain P e k) = At d -> tzinfo d = Some UTC.
Proof.
  unfold timestamp_chain.
  destruct (structured_time (e_published_parsed e)) as [x|] eqn:E1.
  { cbn [fst]. intros H; inversion H; subst.
    eapply structured_time_aware; eassumption. }
  destruct (structured_time (e_updated_parsed e)) as [x|] eqn:E2.
  { cbn [fst]. intros H; inversion H; subst.
    eapply structured_time_aware; eassumption. }
  destruct (free_text_time P (e_published e)) as [t|] eqn:E3; cbn [fst].
  - intros ->. eapply free_text_time_aware; eassumption.
  - intros H; inversion H; reflexivity.
Qed.

(** One key of the loop over the structured breakdowns. *)
Lemma parse_entry_keys_cons e key keys rest w :
  parse_entry_keys e (key :: keys) rest w
  = match structured_time (entry_get e key) with
    | Some d => (Ok (At d), w)
    | None => parse_entry_keys e keys rest w
    end.
Proof.
  cbn [parse_entry_keys]. unfold structured_time.
  destruct (truthy_tuple (entry_get e key)) as [t|]; [|reflexivity].
  unfold try_except, bind, lift, ret.
  destruct (datetime_of_args (firstn 6 t)); reflexivity.
Qed.

(** The normalizer follows the fallback chain and only ever moves the
    tick. *)
Lemma parse_entry_published_run e w :
  parse_entry_published P e w
  = (Ok (fst (timestamp_chain P e (tick w))),
     mkworld (news w) (snd (timestamp_chain P e (tick w)))).
Proof.
  destruct w as [t k]. unfold parse_entry_published, timestamp_chain.
  rewrite !parse_entry_keys_cons. cbn [entry_get parse_entry_keys news tick].
  destruct (structured_time (e_published_parsed e)); [reflexivity|].
  destruct (structured_time (e_updated_parsed e)); [reflexivity|].
  unfold free_text_time, to_datetime_utc, try_except, lift, return_now, bind,
    datetime_now_utc, ret.
  destruct (truthy_text (e_published e)) as [text|]; [|reflexivity].
  destruct (to_datetime P text) as [[d|]|]; reflexivity.
Qed.

Lemma save_article_run fo ttl lnk pub src w :
  save_article fo ttl lnk pub src w
  = (Ok tt, mkworld (store (news w) (mkarticle fo ttl lnk pub src)) (tick w)).
Proof.
  destruct w as [t k].
  unfold save_article, try_except, sql_insert, store, ret. simpl.
  destruct (link_taken lnk t); reflexivity.
Qed.

Lemma lt_in_window d start :
  tzinfo d = Some UTC -> tzinfo start = Some UTC ->
  DateTime.lt d start = Ok (negb (in_window start d)).
Proof.
  intros Hd Hs. unfold DateTime.lt, in_window. rewrite Hd, Hs.
  destruct (compare_fields d start); reflexivity.
Qed.

Lemma astimezone_aware d :
  tzinfo d = Some UTC ->
  replace_tzinfo (astimezone_utc P d) (Some UTC) = d.
Proof.
  intros H. unfold astimezone_utc. rewrite H.
  destruct d; simpl in *; subst; reflexivity.
Qed.

Lemma store_all_app t a b :
  store_all t (a ++ b) = store_all (store_all t a) b.
Proof. unfold store_all. apply fold_left_app. Qed.

(** The inner loop appends the entries that pass, and stores them, until
    it comes to its end or to an entry dated [NaT]. *)
Lemma fetch_entries_run g fo :
  tzinfo (NEWS_CUTOFF_DATE g) = Some UTC ->
  forall es results w,
    fetch_entries P g fo es results w
    = outcome results (news w)
              (passing_entries P (NEWS_CUTOFF_DATE g) fo es (tick w)).
Proof.
  intros Hg es.
  induction es as [|e es IH]; intros results w.
  - destruct w; unfold outcome; simpl. unfold ret. now rewrite app_nil_r.
  - cbn [fetch_entries passing_entries]. unfold bind at 1.
    rewrite parse_entry_published_run.
    pose proof (timestamp_chain_aware e (tick w)) as Haware.
    destruct (timestamp_chain P e (tick w)) as [[d|] k1]; cbn [fst snd] in *.
    + specialize (Haware d eq_refl).
      unfold bind at 1, lift at 1. cbn [timestamp_lt].
      rewrite (lt_in_window d _ Haware Hg).
      destruct (in_window (NEWS_CUTOFF_DATE g) d); cbn [negb].
      * unfold bind at 1, lift at 1. cbn [timestamp_astimezone_utc].
        unfold bind at 1. rewrite save_article_run, IH. cbn [news tick].
        rewrite (astimezone_aware d Haware).
        unfold outcome, article_of. cbn [passed ended_at completed store_all
                                         fold_left].
        rewrite <- app_assoc. reflexivity.
      * rewrite IH. reflexivity.
    + unfold bind at 1, lift at 1. cbn [timestamp_lt].
      unfold bind at 1, lift at 1. cbn [timestamp_astimezone_utc].
      reflexivity.
Qed.

(** The outer loop does the same over the tracked names, skipping the
    malformed feeds. *)
Lemma fetch_offices_run g cap :
  tzinfo (NEWS_CUTOFF_DATE g) = Some UTC ->
  forall offices results w,
    fetch_offices P g offices cap results w
    = outcome results (news w)
              (passing_offices P (NEWS_CUTOFF_DATE g) offices cap (tick w)).
Proof.
  intros Hg offices.
  induction offices as [|fo rest IH]; intros results w.
  - destruct w; unfold outcome; simpl. unfold ret. now rewrite app_nil_r.
  - cbn [fetch_offices passing_offices]. unfold bind at 1, request_feed at 1.
    destruct (bozo (feedparser_parse P (tick w) (feed_url fo))).
    + rewrite IH. reflexivity.
    + unfold bind at 1. rewrite (fetch_entries_run g fo Hg). cbn [news tick].
      cbv zeta. unfold outcome at 1.
      destruct (completed (passing_entries P (NEWS_CUTOFF_DATE g) fo _
                                           (S (tick w)))) eqn:Ec.
      * rewrite IH. cbn [news tick]. unfold outcome.
        cbn [passed ended_at completed].
        rewrite store_all_app, app_assoc. reflexivity.
      * unfold outcome. rewrite Ec. reflexivity.
Qed.

(** A parser that never answers [NaT] lets every fetch come to its end. *)
Lemma timestamp_chain_dated e k :
  never_nat P -> exists d, fst (timestamp_chain P e k) = At d.
Proof.
  intros Hn. unfold timestamp_chain.
  destruct (structured_time (e_published_parsed e)) as [x1|];
    [exists x1; reflexivity|].
  destruct (structured_time (e_updated_parsed e)) as [x2|];
    [exists x2; reflexivity|].
  unfold free_text_time.
  destruct (truthy_text (e_published e)) as [text|];
    [|eexists; reflexivity].
  destruct (to_datetime P text) as [[x3|]|] eqn:E;
    [eexists; reflexivity| |eexists; reflexivity].
  exfalso. exact (Hn text E).
Qed.

Lemma passing_entries_completed c fo es :
  never_nat P -> forall k, completed (passing_entries P c fo es k) = true.
Proof.
  intros Hn. induction es as [|e es IH]; intros k; [reflexivity|].
  cbn [passing_entries].
  destruct (timestamp_chain_dated e k Hn) as [d Hd].
  destruct (timestamp_chain P e k) as [t k1]. cbn [fst] in Hd. subst t.
  cbv zeta. destruct (in_window c d); cbn [completed]; apply IH.
Qed.

Lemma passing_offices_completed c cap offices :
  never_nat P -> forall k, completed (passing_offices P c offices cap k) = true.
Proof.
  intros Hn. induction offices as [|fo rest IH]; intros k; [reflexivity|].
  cbn [passing_offices].
  destruct (bozo (feedparser_parse P k (feed_url fo))); [apply IH|].
  cbv zeta. rewrite (passing_entries_completed c fo _ Hn).
  cbn [completed]. apply IH.
Qed.

End Runs.

(** ** The byte order of texts and the statements over [news] *)

Section TableFacts.

Lemma string_leb_compare (a b : string) :
  (a <=? b)%string = true <-> String.compare a b <> Gt.
Proof.
  unfold String.leb. destruct (String.compare a b); split; intros H;
    try reflexivity; try discriminate; congruence.
Qed.

Lemma string_leb_refl (a : string) : (a <=? a)%string = true.
Proof.
  apply string_leb_compare. rewrite DateTimeFacts.string_compare_refl.
  discriminate.
Qed.

Lemma string_leb_trans (a : string) :
  forall b c, (a <=? b)%string = true -> (b <=? c)%string = true ->
              (a <=? c)%string = true.
Proof.
  induction a as [|x a IH]; intros b c Hab Hbc.
  - destruct c; reflexivity.
  - destruct b as [|y b]; [discriminate Hab|].
    destruct c as [|z c]; [discriminate Hbc|].
    apply string_leb_compare. apply string_leb_compare in Hab, Hbc.
    cbn [String.compare] in *. unfold Ascii.compare in *.
    destruct (N.compare_spec (N_of_ascii x) (N_of_ascii y)) as [Exy|Lxy|Gxy];
      destruct (N.compare_spec (N_of_ascii y) (N_of_ascii z)) as [Eyz|Lyz|Gyz];
      try congruence.
    + replace (N_of_ascii x ?= N_of_ascii z)%N with Eq
        by (symmetry; apply N.compare_eq_iff; congruence).
      apply string_leb_compare. apply (IH b c); apply string_leb_compare;
        assumption.
    + replace (N_of_ascii x ?= N_of_ascii z)%N with Lt
        by (symmetry; apply N.compare_lt_iff; lia).
      discriminate.
    + replace (N_of_ascii x ?= N_of_ascii z)%N with Lt
        by (symmetry; apply N.compare_lt_iff; lia).
      discriminate.
    + replace (N_of_ascii x ?= N_of_ascii z)%N with Lt
        by (symmetry; apply N.compare_lt_iff; lia).
      discriminate.
Qed.

Lemma string_leb_false_flip (a b : string) :
  (a <=? b)%string = false -> (b <=? a)%string = true.
Proof.
  intros H. destruct (String.leb_total a b) as [H'|H']; congruence.
Qed.

Lemma insert_desc_In r l x :
  In x (insert_desc r l) <-> x = r \/ In x l.
Proof.
  induction l as [|y l IH]; simpl.
  - intuition.
  - destruct (published y <=? published r)%string; simpl; [intuition|].
    rewrite IH. intuition.
Qed.

Lemma order_by_published_desc_In l x :
  In x (order_by_published_desc l) <-> In x l.
Proof.
  induction l as [|y l IH]; simpl; [tauto|].
  rewrite insert_desc_In, IH. intuition.
Qed.

Lemma insert_desc_length r l :
  List.length (insert_desc r l) = S (List.length l).
Proof.
  induction l as [|y l IH]; simpl; [reflexivity|].
  destruct (published y <=? published r)%string; simpl; congruence.
Qed.

Lemma order_by_published_desc_length l :
  List.length (order_by_published_desc l) = List.length l.
Proof.
  induction l as [|y l IH]; simpl; [reflexivity|].
  rewrite insert_desc_length. congruence.
Qed.

Lemma insert_desc_sorted r l :
  StronglySorted newer_or_equal l ->
  StronglySorted newer_or_equal (insert_desc r l).
Proof.
  induction 1 as [|y l Hs IH Hy]; simpl.
  - constructor; constructor.
  - destruct (published y <=? published r)%string eqn:E.
    + constructor; [constructor; assumption|].
      constructor; [exact E|].
      rewrite Forall_forall in *. intros x Hx. unfold newer_or_equal in *.
      eapply string_leb_trans; [apply Hy; exact Hx|exact E].
    + constructor; [exact IH|].
      rewrite Forall_forall in *. intros x Hx.
      apply insert_desc_In in Hx. destruct Hx as [->|Hx]; [|auto].
      apply string_leb_false_flip. exact E.
Qed.

Lemma order_by_published_desc_sorted l :
  StronglySorted newer_or_equal (order_by_published_desc l).
Proof.
  induction l as [|y l IH]; simpl; [constructor|].
  apply insert_desc_sorted. exact IH.
Qed.

Lemma firstn_strongly_sorted {A} (R : A -> A -> Prop) n l :
  StronglySorted R l -> StronglySorted R (firstn n l).
Proof.
  intros H. revert n. induction H as [|y l Hs IH Hy]; intros [|n]; simpl;
    try constructor; [apply IH|].
  rewrite Forall_forall in *. intros x Hx. apply Hy.
  rewrite <- (firstn_skipn n l). apply in_or_app. now left.
Qed.

Lemma sql_limit_incl n l x : In x (sql_limit n l) -> In x l.
Proof.
  unfold sql_limit. destruct (n <? 0); [tauto|].
  intros H. rewrite <- (firstn_skipn (Z.to_nat n) l). apply in_or_app. now left.
Qed.

Lemma sql_limit_sorted n l :
  StronglySorted newer_or_equal l ->
  StronglySorted newer_or_equal (sql_limit n l).
Proof.
  unfold sql_limit. destruct (n <? 0); [tauto|].
  apply firstn_strongly_sorted.
Qed.

Lemma sql_limit_length n l :
  0 <= n -> Z.of_nat (List.length (sql_limit n l)) <= n.
Proof.
  intros Hn. unfold sql_limit.
  destruct (Z.ltb_spec n 0); [lia|].
  rewrite length_firstn. lia.
Qed.

(** A limit that does not cut leaves the rows as they are. *)
Lemma sql_limit_all n l :
  n < 0 \/ Z.of_nat (List.length l) <= n -> sql_limit n l = l.
Proof.
  intros H. unfold sql_limit.
  destruct (Z.ltb_spec n 0); [reflexivity|].
  apply firstn_all2. lia.
Qed.

Lemma link_taken_In l t :
  link_taken l t = true <-> exists r, In r t /\ link r = l.
Proof.
  unfold link_taken. rewrite existsb_exists.
  split; intros (r & Hr & E); exists r; split; try assumption.
  - now apply String.eqb_eq.
  - now apply String.eqb_eq.
Qed.

Lemma unique_links_filter t r :
  unique_links t -> In r t ->
  filter (fun x => String.eqb (link x) (link r)) t = [r].
Proof.
  unfold unique_links. induction t as [|y t IH]; simpl; [tauto|].
  intros Hnd Hin. inversion Hnd as [|? ? Hy Ht]; subst.
  assert (Hnone : forall l, ~ In l (map link t) ->
                  filter (fun x => String.eqb (link x) l) t = []).
  { clear. intros l. induction t as [|z t IH]; simpl; [reflexivity|].
    intros H. destruct (String.eqb_spec (link z) l) as [E|E]; [tauto|].
    apply IH. tauto. }
  destruct Hin as [->|Hin].
  - rewrite String.eqb_refl. f_equal. apply Hnone. exact Hy.
  - destruct (String.eqb_spec (link y) (link r)) as [E|E].
    + exfalso. apply Hy. rewrite E. apply in_map. exact Hin.
    + apply IH; assumption.
Qed.

Lemma unique_links_store t a :
  unique_links t -> unique_links (store t a).
Proof.
  unfold unique_links, store. intros H.
  destruct (link_taken (art_link a) t) eqn:E; [exact H|].
  rewrite map_app. simpl.
  rewrite <- (rev_involutive (map link t ++ [art_link a])).
  apply NoDup_rev. rewrite rev_app_distr. simpl.
  constructor.
  - rewrite <- in_rev. intros Hin. apply in_map_iff in Hin.
    destruct Hin as (r & Hr & Hin).
    assert (link_taken (art_link a) t = true)
      by (apply link_taken_In; eauto).
    congruence.
  - apply NoDup_rev. exact H.
Qed.

Lemma unique_links_store_all arts :
  forall t, unique_links t -> unique_links (store_all t arts).
Proof.
  induction arts as [|a arts IH]; intros t H; simpl; [exact H|].
  apply IH. apply unique_links_store. exact H.
Qed.

End TableFacts.

(** ** The claims *)

(** What does hold of the normalizer: it never raises, it leaves the table
    alone, and what it returns is what the fallback chain names, a
    UTC-aware datetime or the parser's [NaT]. *)
Lemma parse_entry_published_chain (P : platform) (e : entry) (w : world) :
  exists t w',
    parse_entry_published P e w = (Ok t, w')
    /\ (t, tick w') = timestamp_chain P e (tick w)
    /\ news w' = news w
    /\ forall d, t = At d -> tzinfo d = Some UTC.
Proof.
  exists (fst (timestamp_chain P e (tick w))).
  exists (mkworld (news w) (snd (timestamp_chain P e (tick w)))).
  split; [apply parse_entry_published_run|].
  split; [cbn [tick]; now destruct (timestamp_chain P e (tick w))|].
  split; [reflexivity|].
  intros d Hd. eapply timestamp_chain_aware. exact Hd.
Qed.

(** C3. The normalizer does not always produce a timestamp.  For an entry
    without a usable breakdown whose free text the parser reads as [NaT]
    (as pandas reads [nan] and [NaT]), [parse_entry_published] returns
    [NaT], without raising and without reading the clock: the fallback on
    the current UTC instant is not reached.  In the fetch the cutoff test
    does not skip such an entry, and its conversion to UTC raises
    [ValueError] out of the loop. *)
Theorem parse_entry_published_nat
        (P : platform) (e : entry) (text : string) (w : world) :
  structured_time (e_published_parsed e) = None ->
  structured_time (e_updated_parsed e) = None ->
  truthy_text (e_published e) = Some text ->
  to_datetime P text = Ok NaT ->
  parse_entry_published P e w = (Ok NaT, w)
  /\ forall g fo es results,
       fetch_entries P g fo (e :: es) results w = (Raise ValueError, w).
Proof.
  intros H1 H2 H3 H4.
  assert (Hparse : parse_entry_published P e w = (Ok NaT, w)).
  { rewrite parse_entry_published_run. unfold timestamp_chain, free_text_time.
    rewrite H1, H2, H3, H4. now destruct w. }
  split; [exact Hparse|].
  intros g fo es results. cbn [fetch_entries].
  unfold bind at 1. rewrite Hparse. reflexivity.
Qed.

Lemma parse_entry_published_nat_witness :
  parse_entry_published Demo.platform Demo.entry_nan (mkworld [] 7)
  = (Ok NaT, mkworld [] 7)
  /\ forall g fo es results,
       fetch_entries Demo.platform g fo (Demo.entry_nan :: es) results
                     (mkworld [] 7)
       = (Raise ValueError, mkworld [] 7).
Proof.
  apply (parse_entry_published_nat Demo.platform Demo.entry_nan "nan"
                                   (mkworld [] 7)); reflexivity.
Defined.

(** A fetch over a feed with such an entry: the entry before it is stored,
    the run ends in [ValueError] and returns nothing, the entry after it is
    never looked at. *)
Example fetch_news_google_raises_on_nat :
  fetch_news_google Demo.platform Demo.globals ["Nan Holdings"] None
                    (mkworld [] 1)
  = (Raise ValueError,
     mkworld [mkrow 1 "Nan Holdings" "Acme Capital buys a stake" "https://x/1"
                    "2024-02-25T12:00:00+00:00" "Google News"] 2).
Proof. reflexivity. Qed.

Example parse_entry_published_structured :
  parse_entry_published Demo.platform Demo.entry_5_days (mkworld [] 7)
  = (Ok (At (mkdt 2024 2 25 12 0 0 0 (Some UTC))), mkworld [] 7).
Proof. reflexivity. Qed.

Example parse_entry_published_text :
  parse_entry_published Demo.platform Demo.entry_text_only (mkworld [] 7)
  = (Ok (At (mkdt 2024 2 20 12 0 0 0 (Some UTC))), mkworld [] 7).
Proof. reflexivity. Qed.

Example parse_entry_published_now :
  parse_entry_published Demo.platform Demo.entry_undated (mkworld [] 7)
  = (Ok (At (mkdt 2024 3 1 12 0 7 250 (Some UTC))), mkworld [] 8).
Proof. reflexivity. Qed.

(** C2. Saving a record whose link is already stored succeeds and changes
    nothing: no exception reaches the caller, the world is the one before,
    and the table still holds exactly one row for that link, the one first
    inserted, with all its fields. *)
Theorem save_article_duplicate_link
        (w : world) (r : row) (fo ttl pub src : string) :
  unique_links (news w) ->
  In r (news w) ->
  save_article fo ttl (link r) pub src w = (Ok tt, w)
  /\ filter (fun x => String.eqb (link x) (link r)) (news w) = [r].
Proof.
  intros Hu Hin. split.
  - rewrite save_article_run. unfold store. cbn [art_link].
    replace (link_taken (link r) (news w)) with true
      by (symmetry; apply link_taken_In; eauto).
    now destruct w.
  - apply unique_links_filter; assumption.
Qed.

Lemma save_article_duplicate_link_witness :
  save_article "Acme Capital" "Another title" "https://x/1"
               "2024-02-26T00:00:00+00:00" "Google News"
               (mkworld [Demo.row_5_days] 3)
  = (Ok tt, mkworld [Demo.row_5_days] 3)
  /\ filter (fun x => String.eqb (link x) "https://x/1") [Demo.row_5_days]
     = [Demo.row_5_days].
Proof.
  apply (save_article_duplicate_link (mkworld [Demo.row_5_days] 3)
                                     Demo.row_5_days).
  - unfold unique_links. simpl. constructor; [simpl; tauto|constructor].
  - simpl. left. reflexivity.
Defined.

(** The table keeps one row per link through every save. *)
Lemma save_article_unique_links fo ttl lnk pub src w :
  unique_links (news w) ->
  unique_links (news (snd (save_article fo ttl lnk pub src w))).
Proof.
  intros H. rewrite save_article_run. cbn [snd news].
  apply unique_links_store. exact H.
Qed.

Example save_twice_keeps_first_title :
  let w1 := snd (save_article "Acme Capital" "First title" "https://x/1"
                              "2024-02-25T12:00:00+00:00" "Google News"
                              (mkworld [] 0)) in
  save_article "Acme Capital" "Second title" "https://x/1"
               "2024-02-26T12:00:00+00:00" "Google News" w1
  = (Ok tt,
     mkworld [mkrow 1 "Acme Capital" "First title" "https://x/1"
                    "2024-02-25T12:00:00+00:00" "Google News"] 0).
Proof. reflexivity. Qed.

Lemma demo_globals_bound : bound_at_load Demo.platform Demo.globals.
Proof. exists (mkworld [] 0), (mkworld [] 1). reflexivity. Defined.

Lemma bind_ext {A B : Type} (m m' : M A) (f f' : A -> M B) (w : world) :
  m w = m' w ->
  (forall a w', f a w' = f' a w') ->
  bind m f w = bind m' f' w.
Proof.
  intros Hm Hf. unfold bind. rewrite Hm.
  destruct (m' w) as [[a|x] w1]; [apply Hf|reflexivity].
Qed.

Lemma bind_assoc {A B C : Type} (m : M A) (f : A -> M B) (h : B -> M C)
      (w : world) :
  bind (bind m f) h w = bind m (fun a => bind (f a) h) w.
Proof. unfold bind. destruct (m w) as [[a|x] w1]; reflexivity. Qed.

Lemma fetch_offices_app P g cap pre post :
  forall results w,
    fetch_offices P g (pre ++ post) cap results w
    = bind (fetch_offices P g pre cap results)
           (fun r => fetch_offices P g post cap r) w.
Proof.
  induction pre as [|fo pre IH]; intros results w; [reflexivity|].
  cbn [app fetch_offices]. rewrite bind_assoc.
  apply bind_ext; [reflexivity|]. intros f w1.
  destruct (bozo f); [apply IH|].
  rewrite bind_assoc. apply bind_ext; [reflexivity|]. intros r w2. apply IH.
Qed.

(** C4. A malformed feed contributes nothing and stops nothing.  Wherever
    the name stands in the list, when the loop has come to it with the list
    [so_far] and the provider flags its feed, the run goes on with the
    names after it and the same list, one request later; no exception comes
    of the flag.  Over [[A; B]] with A's feed malformed and B's well-formed
    the run is the run over [[B]] alone, one request later: it returns
    exactly B's entries that pass the filter, and stores them, whenever it
    comes to its end, and it does on every platform whose text parser never
    answers [NaT]; an entry of B dated [NaT] is the one thing that ends it,
    in [ValueError]. *)
Theorem fetch_news_google_skips_malformed
        (P : platform) (g : globals) (A B : string) (per_office : option Z) :
  (forall (before after : list string) (cap : Z)
          (results so_far : list article) (w w1 : world),
      fetch_offices P g before cap results w = (Ok so_far, w1) ->
      bozo (feedparser_parse P (tick w1) (feed_url A)) = true ->
      fetch_offices P g (before ++ A :: after) cap results w
      = fetch_offices P g after cap so_far
                      (mkworld (news w1) (S (tick w1))))
  /\ (forall w : world,
         bound_at_load P g ->
         bozo (feedparser_parse P (tick w) (feed_url A)) = true ->
         bozo (feedparser_parse P (S (tick w)) (feed_url B)) = false ->
         let es := slice_to (with_default 20 per_office)
                            (entries (feedparser_parse P (S (tick w))
                                                       (feed_url B))) in
         let run := passing_entries P (NEWS_CUTOFF_DATE g) B es
                                    (S (S (tick w))) in
         fetch_news_google P g [A; B] per_office w
         = fetch_news_google P g [B] per_office
                             (mkworld (news w) (S (tick w)))
         /\ fetch_news_google P g [A; B] per_office w
            = outcome [] (news w) run
         /\ (completed run = true ->
             fetch_news_google P g [A; B] per_office w
             = (Ok (passed run),
                mkworld (store_all (news w) (passed run)) (ended_at run)))
         /\ (never_nat P -> completed run = true)).
Proof.
  split.
  - intros before after cap results so_far w w1 Hbefore HA.
    rewrite fetch_offices_app. unfold bind at 1. rewrite Hbefore.
    cbn [fetch_offices]. unfold bind at 1, request_feed at 1.
    rewrite HA. reflexivity.
  - intros w Hg HA HB.
    apply bound_at_load_cutoff in Hg. destruct Hg as [Hg _].
    cbv zeta.
    assert (Hhead : fetch_news_google P g [A; B] per_office w
                    = fetch_news_google P g [B] per_office
                                        (mkworld (news w) (S (tick w)))).
    { unfold fetch_news_google. cbn [fetch_offices].
      unfold bind at 1, request_feed at 1. rewrite HA. reflexivity. }
    assert (Hrun : fetch_news_google P g [A; B] per_office w
                   = outcome [] (news w)
                       (passing_entries P (NEWS_CUTOFF_DATE g) B
                          (slice_to (with_default 20 per_office)
                             (entries (feedparser_parse P (S (tick w))
                                                        (feed_url B))))
                          (S (S (tick w))))).
    { unfold fetch_news_google.
      rewrite (fetch_offices_run P g _ Hg). cbn [passing_offices].
      rewrite HA, HB. cbv zeta.
      destruct (passing_entries P (NEWS_CUTOFF_DATE g) B _ (S (S (tick w))))
        as [arts k [|]]; cbn [completed passed ended_at]; unfold outcome;
        cbn [completed passed ended_at]; [|reflexivity].
      now rewrite app_nil_r. }
    split; [exact Hhead|]. split; [exact Hrun|]. split.
    + intros Hc. rewrite Hrun. unfold outcome. rewrite Hc. reflexivity.
    + intros Hn. apply passing_entries_completed. exact Hn.
Qed.

Lemma fetch_news_google_skips_malformed_witness :
  fetch_news_google Demo.platform Demo.globals
                    ["Broken Office"; "Acme Capital"] None (mkworld [] 1)
  = (Ok [Demo.article_5_days;
         mkarticle "Acme Capital" "Acme Capital hires" "https://x/3"
                   "2024-02-20T12:00:00+00:00" "Google News"],
     mkworld [Demo.row_5_days;
              mkrow 2 "Acme Capital" "Acme Capital hires" "https://x/3"
                    "2024-02-20T12:00:00+00:00" "Google News"] 3).
Proof.
  destruct (fetch_news_google_skips_malformed
              Demo.platform Demo.globals "Broken Office" "Acme Capital" None)
    as [_ H].
  destruct (H (mkworld [] 1) demo_globals_bound eq_refl eq_refl)
    as (_ & _ & Hok & _).
  rewrite Hok; reflexivity.
Defined.

(** The malformed name in the middle of the list. *)
Example fetch_news_google_skips_malformed_in_the_middle :
  fetch_news_google Demo.platform Demo.globals
                    ["Cutoff Partners"; "Broken Office"; "Acme Capital"]
                    (Some 1) (mkworld [] 1)
  = (Ok [Demo.article_5_days],
     mkworld [Demo.row_5_days] 4).
Proof. reflexivity. Qed.

(** C7. What the run returns is exactly the list of the entries that
    passed the cutoff filter in this run, in the order they were processed,
    whatever the table held before: an entry whose link was already stored
    is in the list all the same, while the table is only extended by the
    links it did not have.  The run returns that list whenever it comes to
    its end, and it does on every platform whose text parser never answers
    [NaT]; an entry dated [NaT] ends it in [ValueError], with the entries
    that passed before it stored and nothing returned.  Whether it returns,
    and what, never depends on the table. *)
Theorem fetch_news_google_returns_passing
        (P : platform) (g : globals) (offices : list string)
        (per_office : option Z) (w : world) :
  bound_at_load P g ->
  let run := passing_offices P (NEWS_CUTOFF_DATE g) offices
                             (with_default 20 per_office) (tick w) in
  fetch_news_google P g offices per_office w = outcome [] (news w) run
  /\ (completed run = true ->
      fetch_news_google P g offices per_office w
      = (Ok (passed run),
         mkworld (store_all (news w) (passed run)) (ended_at run)))
  /\ (never_nat P -> completed run = true)
  /\ forall t : list row,
       fst (fetch_news_google P g offices per_office (mkworld t (tick w)))
       = fst (fetch_news_google P g offices per_office w).
Proof.
  intros Hg. apply bound_at_load_cutoff in Hg. destruct Hg as [Hg _].
  cbv zeta. unfold fetch_news_google.
  split; [apply (fetch_offices_run P g _ Hg)|]. split; [|split].
  - intros Hc. rewrite (fetch_offices_run P g _ Hg). unfold outcome.
    rewrite Hc. reflexivity.
  - intros Hn. apply passing_offices_completed. exact Hn.
  - intros t. rewrite !(fetch_offices_run P g _ Hg). reflexivity.
Qed.

Lemma fetch_news_google_returns_passing_witness :
  fetch_news_google Demo.platform Demo.globals ["Acme Capital"] (Some 1)
                    (mkworld [Demo.row_5_days] 1)
  = (Ok [Demo.article_5_days], mkworld [Demo.row_5_days] 2).
Proof.
  destruct (fetch_news_google_returns_passing
              Demo.platform Demo.globals ["Acme Capital"] (Some 1)
              (mkworld [Demo.row_5_days] 1) demo_globals_bound)
    as (_ & H & _).
  rewrite H; reflexivity.
Defined.

(** A second run over the same feed returns the same list again and leaves
    the table as the first run made it. *)
Example fetch_twice_returns_duplicates :
  let first := fetch_news_google Demo.platform Demo.globals
                                 ["Acme Capital"] None (mkworld [] 1) in
  let second := fetch_news_google Demo.platform Demo.globals
                                  ["Acme Capital"] None (snd first) in
  fst second = fst first /\ news (snd second) = news (snd first)
  /\ exists a b, fst first = Ok [a; b].
Proof. cbv zeta. repeat split. eexists. eexists. reflexivity. Qed.

Lemma slice_to_firstn {A : Type} (n : Z) (xs : list A) :
  0 <= n -> slice_to n xs = firstn (Z.to_nat n) xs.
Proof.
  intros H. unfold slice_to. destruct (Z.ltb_spec n 0); [lia|reflexivity].
Qed.

(** C6. The cap comes before the cutoff filter: of a well-formed feed the
    run takes the first [per_office] entries in the order given and dates
    and filters only those, so what it returns and stores are the entries
    among the first [per_office] that pass, and an entry past the cap plays
    no part, not even when it is dated [NaT].  With a cap of 2 and entries
    dated 5, 70 and 10 days back, the first two are taken, the second is
    dropped, one record is stored and the third entry is not looked at. *)
Theorem fetch_news_google_cap_before_cutoff :
  (forall (P : platform) (g : globals) (fo : string) (per_office : Z)
          (w : world),
      bound_at_load P g ->
      0 <= per_office ->
      bozo (feedparser_parse P (tick w) (feed_url fo)) = false ->
      let taken := firstn (Z.to_nat per_office)
                          (entries (feedparser_parse P (tick w) (feed_url fo))) in
      let run := passing_entries P (NEWS_CUTOFF_DATE g) fo taken (S (tick w)) in
      fetch_news_google P g [fo] (Some per_office) w
      = outcome [] (news w) run
      /\ (completed run = true ->
          fetch_news_google P g [fo] (Some per_office) w
          = (Ok (passed run),
             mkworld (store_all (news w) (passed run)) (ended_at run))))
  /\ entries (Demo.feeds 1 (feed_url "Acme Capital"))
     = [Demo.entry_5_days; Demo.entry_70_days; Demo.entry_10_days]
  /\ fetch_news_google Demo.platform Demo.globals ["Acme Capital"] (Some 2)
                       (mkworld [] 1)
     = (Ok [Demo.article_5_days], mkworld [Demo.row_5_days] 2).
Proof.
  split; [|split; reflexivity].
  intros P g fo per_office w Hg Hcap Hbozo.
  apply bound_at_load_cutoff in Hg. destruct Hg as [Hg _].
  cbv zeta.
  assert (Hrun : fetch_news_google P g [fo] (Some per_office) w
                 = outcome [] (news w)
                     (passing_entries P (NEWS_CUTOFF_DATE g) fo
                        (firstn (Z.to_nat per_office)
                           (entries (feedparser_parse P (tick w) (feed_url fo))))
                        (S (tick w)))).
  { unfold fetch_news_google.
    rewrite (fetch_offices_run P g _ Hg). cbn [passing_offices with_default].
    rewrite Hbozo, (slice_to_firstn per_office _ Hcap). cbv zeta.
    destruct (passing_entries P (NEWS_CUTOFF_DATE g) fo _ (S (tick w)))
      as [arts k [|]]; cbn [completed passed ended_at]; unfold outcome;
      cbn [completed passed ended_at]; [|reflexivity].
    now rewrite app_nil_r. }
  split; [exact Hrun|].
  intros Hc. rewrite Hrun. unfold outcome. rewrite Hc. reflexivity.
Qed.

Lemma fetch_news_google_cap_before_cutoff_witness :
  fetch_news_google Demo.platform Demo.globals ["Acme Capital"] (Some 2)
                    (mkworld [Demo.row_at_cutoff] 1)
  = (Ok [Demo.article_5_days],
     mkworld [Demo.row_at_cutoff;
              mkrow 2 "Acme Capital" "Acme Capital buys a stake"
                    "https://x/1" "2024-02-25T12:00:00+00:00" "Google News"]
             2).
Proof.
  destruct fetch_news_google_cap_before_cutoff as [H _].
  destruct (H Demo.platform Demo.globals "Acme Capital" 2
              (mkworld [Demo.row_at_cutoff] 1) demo_globals_bound
              ltac:(lia) eq_refl) as [_ Hok].
  rewrite Hok; reflexivity.
Defined.

(** With a cap of 1 the entry dated [NaT], the second of its feed, is past
    the cap: the run returns. *)
Example cap_before_nat :
  fetch_news_google Demo.platform Demo.globals ["Nan Holdings"] (Some 1)
                    (mkworld [] 1)
  = (Ok [mkarticle "Nan Holdings" "Acme Capital buys a stake" "https://x/1"
                   "2024-02-25T12:00:00+00:00" "Google News"],
     mkworld [mkrow 1 "Nan Holdings" "Acme Capital buys a stake" "https://x/1"
                    "2024-02-25T12:00:00+00:00" "Google News"] 2).
Proof. reflexivity. Qed.

(** The other order would have kept two: filter first, then cap. *)
Example filter_before_cap_would_differ :
  passed (passing_entries Demo.platform Demo.cutoff "Acme Capital"
            [Demo.entry_5_days; Demo.entry_70_days; Demo.entry_10_days] 2)
  = [Demo.article_5_days;
     mkarticle "Acme Capital" "Acme Capital hires" "https://x/3"
               "2024-02-20T12:00:00+00:00" "Google News"].
Proof. reflexivity. Qed.

Lemma fetch_entries_first_entries_only n P g fo es :
  forall results w,
    fetch_entries (first_entries_only n P) g fo es results w
    = fetch_entries P g fo es results w.
Proof.
  induction es as [|e es IH]; intros results w; [reflexivity|].
  cbn [fetch_entries].
  apply bind_ext; [reflexivity|]. intros d w1.
  apply bind_ext; [reflexivity|]. intros older w2.
  destruct older; [apply IH|].
  apply bind_ext; [reflexivity|]. intros in_utc w3.
  apply bind_ext; [reflexivity|]. intros u w4. apply IH.
Qed.

(** C10. Called without a cap, [fetch_news_google] works with a cap of 20:
    the run is the run with [per_office = 20], and it is the run over a
    provider that hands over only the first 20 entries of every feed, so
    no entry past the twentieth is looked at. *)
Theorem fetch_news_google_default_cap
        (P : platform) (g : globals) (offices : list string) (w : world) :
  fetch_news_google P g offices None w
  = fetch_news_google P g offices (Some 20) w
  /\ fetch_news_google P g offices None w
     = fetch_news_google (first_entries_only 20 P) g offices None w.
Proof.
  split; [reflexivity|].
  unfold fetch_news_google. cbn [with_default].
  generalize (@nil article) as results. revert w.
  induction offices as [|fo rest IH]; intros w results; [reflexivity|].
  cbn [fetch_offices]. unfold bind at 1, request_feed at 1.
  symmetry. unfold bind at 1, request_feed at 1. symmetry.
  cbn [first_entries_only feedparser_parse bozo entries].
  destruct (bozo (feedparser_parse P (tick w) (feed_url fo))); [apply IH|].
  rewrite !slice_to_firstn by lia.
  rewrite firstn_firstn. change (Init.Nat.min (Z.to_nat 20) 20) with 20%nat.
  change (Z.to_nat 20) with 20%nat.
  apply bind_ext; [symmetry; apply fetch_entries_first_entries_only|].
  intros r w1. apply IH.
Qed.

(** *** Stored texts carry the UTC offset *)

Section Stamps.

Variable P : platform.

Lemma ends_cons (c : ascii) (tail suffix : string) :
  (exists body, tail = (body ++ suffix)%string) ->
  exists body, String c tail = (body ++ suffix)%string.
Proof. intros [b ->]. exists (String c b). reflexivity. Qed.

Lemma ends_pad_digits (k : nat) (suffix : string) :
  forall (n : Z) (tail : string),
    (exists body, tail = (body ++ suffix)%string) ->
    exists body, pad_digits k n tail = (body ++ suffix)%string.
Proof.
  induction k as [|k IH]; intros n tail H; [exact H|].
  cbn [pad_digits]. apply IH. apply ends_cons. exact H.
Qed.

Lemma isoformat_ends_with_offset (d : datetime) :
  exists body, isoformat d = (body ++ utcoffset_suffix (tzinfo d))%string.
Proof.
  unfold isoformat.
  repeat (apply ends_pad_digits; try apply ends_cons).
  destruct (microsecond d =? 0).
  - exists EmptyString. reflexivity.
  - apply ends_cons. apply ends_pad_digits. exists EmptyString. reflexivity.
Qed.

Lemma isoformat_utc_text (d : datetime) :
  tzinfo d = Some UTC -> utc_text (isoformat d).
Proof.
  intros H. exists d. split; [exact H|]. split; [reflexivity|].
  destruct (isoformat_ends_with_offset d) as [b Hb]. rewrite H in Hb.
  exists b. exact Hb.
Qed.

Lemma stamps_utc_ret {A} (a : A) : stamps_utc (ret a).
Proof. intros w r H. now left. Qed.

Lemma stamps_utc_lift {A} (x : result A) : stamps_utc (lift x).
Proof. intros w r H. now left. Qed.

Lemma stamps_utc_bind {A B} (m : M A) (f : A -> M B) :
  stamps_utc m -> (forall a, stamps_utc (f a)) -> stamps_utc (bind m f).
Proof.
  intros Hm Hf w r. unfold bind.
  specialize (Hm w r).
  destruct (m w) as [[a|x] w1]; cbn [snd] in *; [|exact Hm].
  intros H. apply Hf in H. destruct H as [H|H]; [auto|now right].
Qed.

Lemma stamps_utc_frame {A} (m : M A) :
  (forall w, news (snd (m w)) = news w) -> stamps_utc m.
Proof. intros H w r Hin. rewrite H in Hin. now left. Qed.

Lemma stamps_utc_save_article fo ttl lnk pub src :
  utc_text pub -> stamps_utc (save_article fo ttl lnk pub src).
Proof.
  intros Hpub w r. rewrite save_article_run. cbn [snd news].
  unfold store. cbn [art_link].
  destruct (link_taken lnk (news w)); [now left|].
  intros H. apply in_app_or in H. destruct H as [H|[<-|[]]]; [now left|].
  right. exact Hpub.
Qed.

Lemma stamps_utc_fetch_entries g fo es :
  forall results, stamps_utc (fetch_entries P g fo es results).
Proof.
  induction es as [|e es IH]; intros results; [apply stamps_utc_ret|].
  cbn [fetch_entries].
  apply stamps_utc_bind.
  { apply stamps_utc_frame. intros w. now rewrite parse_entry_published_run. }
  intros d. apply stamps_utc_bind; [apply stamps_utc_lift|].
  intros [|]; [apply IH|].
  apply stamps_utc_bind; [apply stamps_utc_lift|]. intros in_utc.
  apply stamps_utc_bind; [|intros _; apply IH].
  apply stamps_utc_save_article. apply isoformat_utc_text. reflexivity.
Qed.

Lemma stamps_utc_fetch_offices g cap offices :
  forall results, stamps_utc (fetch_offices P g offices cap results).
Proof.
  induction offices as [|fo rest IH]; intros results; [apply stamps_utc_ret|].
  cbn [fetch_offices].
  apply stamps_utc_bind; [apply stamps_utc_frame; reflexivity|].
  intros f. destruct (bozo f); [apply IH|].
  apply stamps_utc_bind; [apply stamps_utc_fetch_entries|].
  intros results'. apply IH.
Qed.

Lemma stamps_utc_clear_all_news : stamps_utc clear_all_news.
Proof. intros w r H. destruct H. Qed.

Lemma stamps_utc_script ui : stamps_utc (script P ui).
Proof.
  unfold script.
  apply stamps_utc_bind.
  { unfold load_globals. apply stamps_utc_bind;
      [apply stamps_utc_frame; reflexivity|].
    intros now. apply stamps_utc_bind; [apply stamps_utc_lift|].
    intros c. apply stamps_utc_ret. }
  intros g. apply stamps_utc_bind; [apply stamps_utc_ret|]. intros _.
  apply stamps_utc_bind.
  { destruct (clear_clicked ui);
      [apply stamps_utc_clear_all_news|apply stamps_utc_ret]. }
  intros _. apply stamps_utc_bind.
  { destruct (fetch_clicked ui); [|apply stamps_utc_ret].
    apply stamps_utc_bind; [apply stamps_utc_fetch_offices|].
    intros _. apply stamps_utc_ret. }
  intros _. apply stamps_utc_frame. reflexivity.
Qed.

Lemma script_runs_utc uis :
  forall w, (forall r, In r (news w) -> utc_text (published r)) ->
            forall r, In r (news (script_runs P uis w)) ->
                      utc_text (published r).
Proof.
  induction uis as [|ui uis IH]; intros w Hw r; [apply Hw|].
  cbn [script_runs]. apply IH. intros r' Hr'.
  apply stamps_utc_script in Hr'. destruct Hr' as [Hr'|Hr']; auto.
Qed.

End Stamps.

(** C9. Every row the fetch pipeline adds to the table carries, as
    [published], the text of a timezone-aware UTC instant, ending in the
    explicit offset [+00:00], whichever fallback dated the entry: a run of
    [fetch_news_google] leaves in the table only rows that were there or
    such rows, and a table that started empty holds only such rows after
    any sequence of runs of the script. *)
Theorem published_always_utc (P : platform) :
  (forall g offices per_office w r,
      In r (news (snd (fetch_news_google P g offices per_office w))) ->
      In r (news w) \/ utc_text (published r))
  /\ (forall uis k r,
         In r (news (script_runs P uis (mkworld [] k))) ->
         utc_text (published r)).
Proof.
  split.
  - intros g offices per_office w r. unfold fetch_news_google.
    apply stamps_utc_fetch_offices.
  - intros uis k. apply script_runs_utc. intros r [].
Qed.

Lemma published_always_utc_witness :
  utc_text "2024-03-01T12:00:02.000250+00:00".
Proof.
  destruct (published_always_utc Demo.platform) as [_ H].
  apply (H [mkui "Borealis Trust" true false] 0%nat
           (mkrow 1 "Borealis Trust" "Borealis Trust" "https://x/4"
                  "2024-03-01T12:00:02.000250+00:00" "Google News")).
  vm_compute. left. reflexivity.
Defined.

(** *** The window and the order, by instants *)

Lemma compare_fields_refl (d : datetime) : compare_fields d d = Eq.
Proof. unfold compare_fields. now rewrite !Z.compare_refl. Qed.

(** Between texts of valid UTC instants, [<=] on the texts is [<=] on the
    instants. *)
Lemma published_at_leb (a b : row) (da db : datetime) :
  published_at a da -> published_at b db ->
  (published a <=? published b)%string = true <-> compare_fields da db <> Gt.
Proof.
  intros (Va & Ta & Ea) (Vb & Tb & Eb).
  rewrite string_leb_compare, Ea, Eb.
  rewrite DateTimeFacts.isoformat_compare by congruence.
  tauto.
Qed.

Lemma lex_opp (a b : comparison) : CompOpp (lex a b) = lex (CompOpp a) (CompOpp b).
Proof. destruct a; reflexivity. Qed.

Lemma compare_fields_antisym (a b : datetime) :
  compare_fields a b = CompOpp (compare_fields b a).
Proof.
  unfold compare_fields. rewrite !lex_opp, <- !Z.compare_antisym. reflexivity.
Qed.

Lemma cutoff_leb_published (c d : datetime) (r : row) :
  valid c = true -> tzinfo c = Some UTC -> published_at r d ->
  (isoformat c <=? published r)%string = true <-> compare_fields d c <> Lt.
Proof.
  intros Vc Tc (Vd & Td & Ed).
  rewrite string_leb_compare, Ed.
  rewrite DateTimeFacts.isoformat_compare by congruence.
  rewrite (compare_fields_antisym c d).
  destruct (compare_fields d c); simpl; split; congruence.
Qed.

Lemma strongly_sorted_weaken {A} (R R' : A -> A -> Prop) (l : list A) :
  (forall a b, R a b -> R' a b) -> StronglySorted R l -> StronglySorted R' l.
Proof.
  intros HR. induction 1 as [|x l Hs IH Hx]; constructor; [exact IH|].
  eapply Forall_impl; [|exact Hx]. intros b. apply HR.
Qed.

(** C8. For every table and every limit the read returns rows of the table
    whose [published] is at or after the window start, newest first (never
    an older row before a newer one), and, for a limit that is a count (not
    negative), at most [limit] of them.  The comparisons are those of the
    stored texts, which for texts of valid UTC instants are those of the
    instants. *)
Theorem fetch_all_news_recent_sorted_capped
        (g : globals) (limit : option Z) (w : world) :
  exists rows,
    fetch_all_news g limit w = (Ok rows, w)
    /\ Forall (fun r => In r (news w)
                        /\ (isoformat (NEWS_CUTOFF_DATE g) <=? published r)%string
                           = true) rows
    /\ StronglySorted newer_or_equal rows
    /\ (0 <= with_default 100 limit ->
        Z.of_nat (List.length rows) <= with_default 100 limit)
    /\ (valid (NEWS_CUTOFF_DATE g) = true ->
        tzinfo (NEWS_CUTOFF_DATE g) = Some UTC ->
        Forall (fun r => forall d, published_at r d ->
                                   compare_fields d (NEWS_CUTOFF_DATE g) <> Lt)
               rows)
    /\ StronglySorted (fun a b => forall da db,
                           published_at a da -> published_at b db ->
                           compare_fields da db <> Lt) rows.
Proof.
  eexists. split; [reflexivity|].
  set (c := isoformat (NEWS_CUTOFF_DATE g)).
  set (n := with_default 100 limit).
  assert (Hin : Forall (fun r => In r (news w) /\ (c <=? published r)%string = true)
                       (sql_select_recent c n (news w))).
  { apply Forall_forall. intros r Hr. unfold sql_select_recent in Hr.
    apply sql_limit_incl in Hr.
    apply (proj1 (order_by_published_desc_In _ _)) in Hr.
    apply (proj1 (filter_In _ _ _)) in Hr. exact Hr. }
  assert (Hs : StronglySorted newer_or_equal (sql_select_recent c n (news w))).
  { unfold sql_select_recent. apply sql_limit_sorted.
    apply order_by_published_desc_sorted. }
  split; [exact Hin|]. split; [exact Hs|]. split; [|split].
  - intros Hn. apply sql_limit_length. exact Hn.
  - intros Vc Tc. eapply Forall_impl; [|exact Hin].
    intros r [_ Hr] d Hd.
    apply (cutoff_leb_published _ d r Vc Tc Hd). exact Hr.
  - eapply strongly_sorted_weaken; [|exact Hs].
    intros a b Hab da db Ha Hb. unfold newer_or_equal in Hab.
    apply (published_at_leb b a db da Hb Ha) in Hab.
    rewrite (compare_fields_antisym da db).
    destruct (compare_fields db da); simpl; congruence.
Qed.

Lemma fetch_all_news_recent_sorted_capped_witness :
  exists rows,
    fetch_all_news Demo.globals (Some 1)
                   (mkworld [Demo.row_at_cutoff; Demo.row_just_older;
                             Demo.row_5_days] 4)
    = (Ok rows, mkworld [Demo.row_at_cutoff; Demo.row_just_older;
                         Demo.row_5_days] 4)
    /\ Z.of_nat (List.length rows) <= 1
    /\ Forall (fun r => forall d, published_at r d ->
                                  compare_fields d Demo.cutoff <> Lt) rows.
Proof.
  destruct (fetch_all_news_recent_sorted_capped
              Demo.globals (Some 1)
              (mkworld [Demo.row_at_cutoff; Demo.row_just_older;
                        Demo.row_5_days] 4))
    as (rows & E & _ & _ & Hlen & Hwin & _).
  exists rows. split; [exact E|]. split.
  - apply Hlen. simpl. lia.
  - apply Hwin; reflexivity.
Defined.

Example fetch_all_news_newest_first :
  fetch_all_news Demo.globals None
                 (mkworld [Demo.row_at_cutoff; Demo.row_just_older;
                           Demo.row_5_days] 4)
  = (Ok [Demo.row_5_days; Demo.row_at_cutoff],
     mkworld [Demo.row_at_cutoff; Demo.row_just_older; Demo.row_5_days] 4).
Proof. reflexivity. Qed.

(** C5. The cutoff is inclusive, on the way in and on the way out.  An
    entry whose normalized timestamp is exactly the cutoff is returned by
    the run and stored (as a new row when its link is new); an entry whose
    timestamp is before the cutoff, by however little, is neither.  A
    stored row published exactly at the cutoff is in the result of the read
    whenever the limit does not cut the result short; a row published
    before the cutoff never is. *)
Theorem cutoff_boundary_inclusive (P : platform) (g : globals) :
  bound_at_load P g ->
  (forall fo e w w1,
      parse_entry_published P e w = (Ok (At (NEWS_CUTOFF_DATE g)), w1) ->
      let a := article_of fo e (NEWS_CUTOFF_DATE g) in
      fetch_entries P g fo [e] [] w
      = (Ok [a], mkworld (store (news w) a) (tick w1))
      /\ link_taken (art_link a) (store (news w) a) = true
      /\ (link_taken (art_link a) (news w) = false ->
          store (news w) a
          = news w ++ [mkrow (next_rowid (news w)) fo (art_title a)
                             (art_link a) (isoformat (NEWS_CUTOFF_DATE g))
                             "Google News"]))
  /\ (forall fo e w d w1,
         parse_entry_published P e w = (Ok (At d), w1) ->
         compare_fields d (NEWS_CUTOFF_DATE g) = Lt ->
         fetch_entries P g fo [e] [] w = (Ok [], w1))
  /\ (forall limit w r,
         In r (news w) ->
         published r = isoformat (NEWS_CUTOFF_DATE g) ->
         limit < 0
         \/ Z.of_nat (List.length
                        (filter (fun x => (isoformat (NEWS_CUTOFF_DATE g)
                                           <=? published x)%string) (news w)))
            <= limit ->
         exists rows, fetch_all_news g (Some limit) w = (Ok rows, w)
                      /\ In r rows)
  /\ (forall limit w r d rows w',
         published_at r d ->
         compare_fields d (NEWS_CUTOFF_DATE g) = Lt ->
         fetch_all_news g limit w = (Ok rows, w') ->
         ~ In r rows).
Proof.
  intros Hg. apply bound_at_load_cutoff in Hg. destruct Hg as [Tc Vc].
  split; [|split; [|split]].
  - intros fo e w w1 Hparse a.
    rewrite parse_entry_published_run in Hparse.
    inversion Hparse as [[Hd Hw1]]. clear Hparse.
    rewrite (fetch_entries_run P g fo Tc). cbn [passing_entries app].
    destruct (timestamp_chain P e (tick w)) as [t k1]. cbn [fst snd] in *.
    subst t. cbv zeta. unfold in_window. rewrite compare_fields_refl.
    unfold outcome.
    cbn [passed ended_at completed store_all fold_left tick app]. fold a.
    split; [reflexivity|]. split.
    + unfold store. destruct (link_taken (art_link a) (news w)) eqn:E;
        [exact E|].
      unfold link_taken. rewrite existsb_app. cbn [existsb link].
      rewrite String.eqb_refl. now rewrite orb_true_r.
    + intros E. unfold store. rewrite E. reflexivity.
  - intros fo e w d w1 Hparse Hlt.
    rewrite parse_entry_published_run in Hparse.
    inversion Hparse as [[Hd Hw1]]. clear Hparse.
    rewrite (fetch_entries_run P g fo Tc). cbn [passing_entries app].
    destruct (timestamp_chain P e (tick w)) as [t k1]. cbn [fst snd] in *.
    subst t. cbv zeta. unfold in_window. rewrite Hlt. reflexivity.
  - intros limit w r Hin Hpub Hlimit.
    eexists. split; [reflexivity|].
    unfold sql_select_recent. cbn [with_default].
    rewrite sql_limit_all
      by (rewrite order_by_published_desc_length; exact Hlimit).
    apply order_by_published_desc_In. apply filter_In.
    split; [exact Hin|]. rewrite Hpub. apply string_leb_refl.
  - intros limit w r d rows w' Hd Hlt Hread Hin.
    inversion Hread as [[Hrows Hw]]. subst rows.
    unfold sql_select_recent in Hin. apply sql_limit_incl in Hin.
    apply (proj1 (order_by_published_desc_In _ _)) in Hin.
    apply (proj1 (filter_In _ _ _)) in Hin. destruct Hin as [_ Hin].
    apply (cutoff_leb_published _ d r Vc Tc Hd) in Hin. congruence.
Qed.

Lemma cutoff_boundary_inclusive_witness :
  fetch_entries Demo.platform Demo.globals "Cutoff Partners"
                [Demo.entry_at_cutoff] [] (mkworld [] 2)
  = (Ok [mkarticle "Cutoff Partners" "On the boundary" "https://x/0"
                   "2024-01-01T12:00:00.000250+00:00" "Google News"],
     mkworld [mkrow 1 "Cutoff Partners" "On the boundary" "https://x/0"
                    "2024-01-01T12:00:00.000250+00:00" "Google News"] 2)
  /\ fetch_entries Demo.platform Demo.globals "Cutoff Partners"
                   [Demo.entry_just_older] [] (mkworld [] 2)
     = (Ok [], mkworld [] 2)
  /\ (exists rows,
         fetch_all_news Demo.globals (Some 200)
                        (mkworld [Demo.row_at_cutoff; Demo.row_just_older] 3)
         = (Ok rows, mkworld [Demo.row_at_cutoff; Demo.row_just_older] 3)
         /\ In Demo.row_at_cutoff rows)
  /\ ~ In Demo.row_just_older
       (sql_select_recent (isoformat Demo.cutoff) 200
                          [Demo.row_at_cutoff; Demo.row_just_older]).
Proof.
  destruct (cutoff_boundary_inclusive Demo.platform Demo.globals
              demo_globals_bound) as (Hw1 & Hw2 & Hr1 & Hr2).
  split; [|split; [|split]].
  - destruct (Hw1 "Cutoff Partners" Demo.entry_at_cutoff (mkworld [] 2)
                  (mkworld [] 2) eq_refl) as [H _].
    rewrite H. reflexivity.
  - apply (Hw2 "Cutoff Partners" Demo.entry_just_older (mkworld [] 2)
               (mkdt 2024 1 1 12 0 0 249 (Some UTC)) (mkworld [] 2)
               eq_refl eq_refl).
  - apply (Hr1 200 (mkworld [Demo.row_at_cutoff; Demo.row_just_older] 3)
               Demo.row_at_cutoff).
    + simpl. left. reflexivity.
    + reflexivity.
    + right. vm_compute. discriminate.
  - apply (Hr2 (Some 200)
               (mkworld [Demo.row_at_cutoff; Demo.row_just_older] 3)
               Demo.row_just_older (mkdt 2024 1 1 12 0 0 249 (Some UTC))
               _ (mkworld [Demo.row_at_cutoff; Demo.row_just_older] 3)).
    + repeat split.
    + reflexivity.
    + reflexivity.
Defined.

(** *** The window start is bound when the script's top level runs *)

Lemma timestamp_chain_tick P e k : (k <= snd (timestamp_chain P e k))%nat.
Proof.
  unfold timestamp_chain.
  destruct (structured_time (e_published_parsed e)); [apply le_n|].
  destruct (structured_time (e_updated_parsed e)); [apply le_n|].
  destruct (free_text_time P (e_published e)); [apply le_n|].
  cbn [snd]. lia.
Qed.

Lemma passing_entries_tick P c fo es :
  forall k, (k <= ended_at (passing_entries P c fo es k))%nat.
Proof.
  induction es as [|e es IH]; intros k; [apply le_n|].
  cbn [passing_entries].
  pose proof (timestamp_chain_tick P e k) as Hk.
  destruct (timestamp_chain P e k) as [[d|] k1]; cbn [snd] in Hk;
    [|exact Hk].
  specialize (IH k1). cbv zeta.
  destruct (in_window c d); cbn [ended_at]; lia.
Qed.

Lemma passing_offices_tick P c cap offices :
  forall k, (k <= ended_at (passing_offices P c offices cap k))%nat.
Proof.
  induction offices as [|fo rest IH]; intros k; [apply le_n|].
  cbn [passing_offices].
  destruct (bozo (feedparser_parse P k (feed_url fo))).
  - specialize (IH (S k)). lia.
  - pose proof (passing_entries_tick P c fo
                  (slice_to cap (entries (feedparser_parse P k (feed_url fo))))
                  (S k)) as H1.
    cbv zeta.
    destruct (completed (passing_entries P c fo _ (S k))); [|lia].
    specialize (IH (ended_at (passing_entries P c fo
                     (slice_to cap (entries (feedparser_parse P k (feed_url fo))))
                     (S k)))).
    cbn [ended_at]. lia.
Qed.

(** C1, as stated, fails: the read does not take its window start from the
    instant of the read.  With the globals bound at tick 0 and the clock five
    seconds on, a row published exactly at the bound cutoff is still
    returned, while a window recomputed at the time of the read has already
    left it behind. *)
Lemma read_window_not_recomputed :
  ~ (forall (P : platform) (g : globals) (limit : Z) (w : world),
        bound_at_load P g ->
        fst (fetch_all_news g (Some limit) w)
        = list_recent_at_read_time P limit w).
Proof.
  intros H.
  specialize (H Demo.platform Demo.globals 200
                (mkworld [Demo.row_at_cutoff] 5) demo_globals_bound).
  vm_compute in H. discriminate H.
Qed.

Example read_window_at_the_two_instants :
  fst (fetch_all_news Demo.globals (Some 200) (mkworld [Demo.row_at_cutoff] 5))
  = Ok [Demo.row_at_cutoff]
  /\ list_recent_at_read_time Demo.platform 200 (mkworld [Demo.row_at_cutoff] 5)
     = Ok [].
Proof. split; reflexivity. Qed.

(** C1, amended.  The window start is bound once per run of the script, to
    the instant its top level runs minus 60 days.  The read takes it from
    there and does not look at the clock: its result is the same at every
    tick and it leaves the world as it is.  A run of the script fetches
    and reads with that one value, however far the clock has moved in
    between: without a fetch the read follows the clearing at once; with
    one, the read sees the table the fetch has made, whenever the fetch
    comes to its end, and else the run ends in the fetch, before the
    read. *)
Theorem read_window_bound_at_load (P : platform) :
  (forall g limit t k k',
      fst (fetch_all_news g limit (mkworld t k))
      = fst (fetch_all_news g limit (mkworld t k'))
      /\ snd (fetch_all_news g limit (mkworld t k)) = mkworld t k)
  /\ (forall ui w c,
         sub_days (replace_tzinfo (clock P (tick w)) (Some UTC)) 60 = Ok c ->
         let w1 := mkworld (if clear_clicked ui then [] else news w)
                           (S (tick w)) in
         let run := passing_offices P c (tracked_offices ui) 20 (S (tick w)) in
         (fetch_clicked ui = false ->
          script P ui w
          = (Ok (sql_select_recent (isoformat c) 200 (news w1)), w1))
         /\ (fetch_clicked ui = true ->
             fetch_news_google P (mkglobals c) (tracked_offices ui) None w1
             = outcome [] (news w1) run
             /\ script P ui w
                = (if completed run
                   then Ok (sql_select_recent
                              (isoformat c) 200
                              (store_all (news w1) (passed run)))
                   else Raise ValueError,
                   mkworld (store_all (news w1) (passed run)) (ended_at run))
             /\ (tick w < ended_at run)%nat)).
Proof.
  split; [intros; split; reflexivity|].
  intros ui w c Hc.
  assert (Tc : tzinfo (NEWS_CUTOFF_DATE (mkglobals c)) = Some UTC).
  { apply sub_days_ok in Hc. destruct Hc as [Hc _]. exact Hc. }
  cbv zeta.
  set (w1 := mkworld (if clear_clicked ui then [] else news w) (S (tick w))).
  assert (Hhead : script P ui w
                  = bind (if fetch_clicked ui
                          then bind (fetch_news_google P (mkglobals c)
                                       (tracked_offices ui) None)
                                    (fun _ => ret tt)
                          else ret tt)
                         (fun _ => fetch_all_news (mkglobals c) (Some 200)) w1).
  { unfold script, load_globals.
    unfold bind at 1. unfold bind at 1. unfold datetime_now_utc at 1.
    unfold bind at 1, lift at 1. rewrite Hc. unfold ret at 1.
    unfold bind at 1, init_db, ret at 1.
    unfold bind at 1. unfold w1.
    destruct (clear_clicked ui); reflexivity. }
  split.
  - intros Hf. rewrite Hhead, Hf. reflexivity.
  - intros Hf.
    assert (Hrun : fetch_news_google P (mkglobals c) (tracked_offices ui)
                                     None w1
                   = outcome [] (news w1)
                       (passing_offices P c (tracked_offices ui) 20
                                        (S (tick w)))).
    { unfold fetch_news_google.
      rewrite (fetch_offices_run P (mkglobals c) _ Tc). reflexivity. }
    split; [exact Hrun|]. split.
    + rewrite Hhead, Hf. unfold bind at 1. unfold bind at 1. rewrite Hrun.
      unfold outcome.
      destruct (completed (passing_offices P c (tracked_offices ui) 20
                                           (S (tick w)))); reflexivity.
    + pose proof (passing_offices_tick P c 20 (tracked_offices ui)
                                       (S (tick w))) as Ht.
      lia.
Qed.

Lemma read_window_bound_at_load_witness :
  script Demo.platform (mkui "Cutoff Partners" true false) (mkworld [] 0)
  = (Ok (sql_select_recent
           (isoformat Demo.cutoff) 200
           [mkrow 1 "Cutoff Partners" "On the boundary" "https://x/0"
                  "2024-01-01T12:00:00.000250+00:00" "Google News"]),
     mkworld [mkrow 1 "Cutoff Partners" "On the boundary" "https://x/0"
                    "2024-01-01T12:00:00.000250+00:00" "Google News"] 2).
Proof.
  destruct (read_window_bound_at_load Demo.platform) as [_ H].
  destruct (H (mkui "Cutoff Partners" true false) (mkworld [] 0) Demo.cutoff
              eq_refl) as [_ Hfetch].
  destruct (Hfetch eq_refl) as (_ & E & _).
  rewrite E. reflexivity.
Defined.

(** A run of the script whose fetch meets an entry dated [NaT] ends in the
    fetch: the read is not reached. *)
Example script_ends_in_fetch :
  script Demo.platform (mkui "Nan Holdings" true false) (mkworld [] 0)
  = (Raise ValueError,
     mkworld [mkrow 1 "Nan Holdings" "Acme Capital buys a stake" "https://x/1"
                    "2024-02-25T12:00:00+00:00" "Google News"] 2).
Proof. reflexivity. Qed.

(** One run of the script: the top level binds the cutoff at tick 0, the
    request goes out at tick 1, and the read at tick 2 still shows the entry
    published exactly at the bound cutoff. *)
Example script_fetch_then_read :
  script Demo.platform (mkui "Cutoff Partners" true false) (mkworld [] 0)
  = (Ok [mkrow 1 "Cutoff Partners" "On the boundary" "https://x/0"
               "2024-01-01T12:00:00.000250+00:00" "Google News"],
     mkworld [mkrow 1 "Cutoff Partners" "On the boundary" "https://x/0"
                    "2024-01-01T12:00:00.000250+00:00" "Google News"] 2).
Proof. reflexivity. Qed.

Example isoformat_whole_second :
  isoformat (mkdt 2024 3 9 7 5 0 0 (Some UTC)) = "2024-03-09T07:05:00+00:00".
Proof. reflexivity. Qed.

Example isoformat_fraction :
  isoformat (mkdt 2024 3 9 7 5 0 1500 (Some UTC))
  = "2024-03-09T07:05:00.001500+00:00".
Proof. reflexivity. Qed.

Example sub_days_60 :
  sub_days (mkdt 2024 3 1 12 0 0 250 (Some UTC)) 60
  = Ok (mkdt 2024 1 1 12 0 0 250 (Some UTC)).
Proof. reflexivity. Qed.

Example sub_days_leap :
  sub_days (mkdt 2024 4 29 0 0 0 0 (Some UTC)) 60
  = Ok (mkdt 2024 2 29 0 0 0 0 (Some UTC)).
Proof. reflexivity. Qed.

Example quote_plus_name :
  feed_url "Acme Capital"
  = "https://news.google.com/rss/search?q=Acme+Capital&hl=en-PH&gl=PH&ceid=PH:en".
Proof. reflexivity. Qed.

Example quote_plus_reserved : quote_plus "A&B (x) +~" = "A%26B+%28x%29+%2B~".
Proof. reflexivity. Qed.

Example tracked_offices_lines :
  tracked_offices (mkui " Acme Capital
  
Borealis Trust  " false false)
  = ["Acme Capital"; "Borealis Trust"].
Proof. reflexivity. Qed.

Example tracked_offices_default :
  tracked_offices (mkui "  " true false) = DEFAULT_FAMILY_OFFICES.
Proof. reflexivity. Qed.


(** * Further properties of the script *)

(** ** The read: completeness and what the limit leaves out *)

Lemma insert_desc_perm r l : Permutation (insert_desc r l) (r :: l).
Proof.
  induction l as [|x l IH]; simpl; [apply Permutation_refl|].
  destruct (published x <=? published r)%string; [apply Permutation_refl|].
  eapply Permutation_trans; [apply perm_skip; exact IH|apply perm_swap].
Qed.

Lemma order_by_published_desc_perm l :
  Permutation (order_by_published_desc l) l.
Proof.
  induction l as [|x l IH]; simpl; [constructor|].
  eapply Permutation_trans; [apply insert_desc_perm|].
  apply perm_skip. exact IH.
Qed.

(** X1. When the limit does not cut the result short (it is negative, or
    at least the number of rows in the window), the read returns every row
    of the table at or after the window start, each as often as the table
    holds it, and nothing else. *)
Theorem fetch_all_news_complete (g : globals) (limit : option Z) (w : world) :
  with_default 100 limit < 0
  \/ Z.of_nat (List.length (recent_rows g (news w))) <= with_default 100 limit ->
  exists rows,
    fetch_all_news g limit w = (Ok rows, w)
    /\ Permutation rows (recent_rows g (news w)).
Proof.
  intros Hlimit. eexists. split; [reflexivity|].
  unfold sql_select_recent. fold (recent_rows g (news w)).
  rewrite sql_limit_all
    by (rewrite order_by_published_desc_length; exact Hlimit).
  apply order_by_published_desc_perm.
Qed.

Lemma fetch_all_news_complete_witness :
  exists rows,
    fetch_all_news Demo.globals (Some 2)
                   (mkworld [Demo.row_at_cutoff; Demo.row_just_older;
                             Demo.row_5_days] 4)
    = (Ok rows, mkworld [Demo.row_at_cutoff; Demo.row_just_older;
                         Demo.row_5_days] 4)
    /\ Permutation rows [Demo.row_at_cutoff; Demo.row_5_days].
Proof.
  apply (fetch_all_news_complete
           Demo.globals (Some 2)
           (mkworld [Demo.row_at_cutoff; Demo.row_just_older;
                     Demo.row_5_days] 4)).
  right. vm_compute. discriminate.
Defined.

Lemma strongly_sorted_app_inv {A} (R : A -> A -> Prop) (l1 l2 : list A) :
  StronglySorted R (l1 ++ l2) ->
  forall a b, In a l1 -> In b l2 -> R a b.
Proof.
  induction l1 as [|x l1 IH]; simpl; intros Hs a b Ha Hb; [destruct Ha|].
  inversion Hs as [|? ? Hs' Hx]; subst.
  destruct Ha as [<-|Ha].
  - rewrite Forall_forall in Hx. apply Hx. apply in_or_app. now right.
  - apply IH; assumption.
Qed.

(** X2. What the limit leaves out is the old end of the window: a row of
    the table that is in the window but not in the result is no newer
    than any row of the result. *)
Theorem fetch_all_news_limit_keeps_newest
        (g : globals) (limit : option Z) (w w' : world) (rows : list row)
        (r kept : row) :
  fetch_all_news g limit w = (Ok rows, w') ->
  In r (recent_rows g (news w)) ->
  ~ In r rows ->
  In kept rows ->
  newer_or_equal kept r.
Proof.
  intros Hread Hr Hout Hkept.
  inversion Hread as [[Hrows Hw]]. clear Hread. subst rows.
  unfold sql_select_recent in *. fold (recent_rows g (news w)) in *.
  set (sorted := order_by_published_desc (recent_rows g (news w))) in *.
  assert (Hs : StronglySorted newer_or_equal sorted)
    by apply order_by_published_desc_sorted.
  assert (Hrs : In r sorted) by (apply order_by_published_desc_In; exact Hr).
  unfold sql_limit in *.
  destruct (with_default 100 limit <? 0); [contradiction|].
  rewrite <- (firstn_skipn (Z.to_nat (with_default 100 limit)) sorted) in Hs, Hrs.
  apply in_app_or in Hrs. destruct Hrs as [Hrs|Hrs]; [contradiction|].
  eapply strongly_sorted_app_inv; eassumption.
Qed.

Lemma fetch_all_news_limit_keeps_newest_witness :
  newer_or_equal Demo.row_5_days Demo.row_at_cutoff.
Proof.
  apply (fetch_all_news_limit_keeps_newest
           Demo.globals (Some 1)
           (mkworld [Demo.row_at_cutoff; Demo.row_5_days] 4)
           (mkworld [Demo.row_at_cutoff; Demo.row_5_days] 4)
           [Demo.row_5_days]).
  - reflexivity.
  - simpl. left. reflexivity.
  - simpl. intros [H|[]]. discriminate H.
  - simpl. left. reflexivity.
Defined.

(** ** Clearing *)

(** X3. Clearing forgets everything, the links too: whatever the table
    held, after [clear_all_news] the read returns no row for any window and
    limit, and a save of any link, one stored before included, inserts it
    as the only row, with row id 1.  A run of the script with only the
    clear button pressed shows an empty table. *)
Theorem clear_all_news_forgets (P : platform) (w : world) :
  (forall g limit,
      bind clear_all_news (fun _ => fetch_all_news g limit) w
      = (Ok [], mkworld [] (tick w)))
  /\ (forall fo ttl lnk pub src,
         bind clear_all_news (fun _ => save_article fo ttl lnk pub src) w
         = (Ok tt, mkworld [mkrow 1 fo ttl lnk pub src] (tick w)))
  /\ (forall ui c,
         clear_clicked ui = true -> fetch_clicked ui = false ->
         sub_days (replace_tzinfo (clock P (tick w)) (Some UTC)) 60 = Ok c ->
         script P ui w = (Ok [], mkworld [] (S (tick w)))).
Proof.
  split; [|split].
  - intros g limit. unfold bind, clear_all_news, fetch_all_news.
    unfold sql_select_recent, sql_limit. cbn [news filter order_by_published_desc fold_right].
    destruct (with_default 100 limit <? 0); [reflexivity|].
    now rewrite firstn_nil.
  - intros fo ttl lnk pub src. unfold bind, clear_all_news.
    rewrite save_article_run. reflexivity.
  - intros ui c Hclear Hfetch Hc.
    unfold script, load_globals.
    unfold bind at 1. unfold bind at 1. unfold datetime_now_utc at 1.
    unfold bind at 1, lift at 1. rewrite Hc. unfold ret at 1.
    rewrite Hclear, Hfetch. reflexivity.
Qed.

Lemma clear_all_news_forgets_witness :
  script Demo.platform (mkui "" false true) (mkworld [Demo.row_5_days] 0)
  = (Ok [], mkworld [] 1).
Proof.
  destruct (clear_all_news_forgets Demo.platform (mkworld [Demo.row_5_days] 0))
    as (_ & _ & H).
  apply (H (mkui "" false true) Demo.cutoff); reflexivity.
Defined.

(** ** What every run keeps true of the table *)

Section Steps.

Variable R : list row -> list row -> Prop.
Hypothesis R_refl : forall t, R t t.
Hypothesis R_trans : forall t1 t2 t3, R t1 t2 -> R t2 t3 -> R t1 t3.
Hypothesis R_store : forall t a, R t (store t a).

Lemma steps_frame {A} (m : M A) :
  (forall w, news (snd (m w)) = news w) -> steps R m.
Proof. intros H w. rewrite H. apply R_refl. Qed.

Lemma steps_bind {A B} (m : M A) (f : A -> M B) :
  steps R m -> (forall a, steps R (f a)) -> steps R (bind m f).
Proof.
  intros Hm Hf w. unfold bind. specialize (Hm w).
  destruct (m w) as [[a|x] w1]; cbn [snd] in *; [|exact Hm].
  eapply R_trans; [exact Hm|apply Hf].
Qed.

Lemma steps_save_article fo ttl lnk pub src :
  steps R (save_article fo ttl lnk pub src).
Proof. intros w. rewrite save_article_run. apply R_store. Qed.

Lemma steps_fetch_entries P g fo es :
  forall results, steps R (fetch_entries P g fo es results).
Proof.
  induction es as [|e es IH]; intros results;
    [apply steps_frame; reflexivity|].
  cbn [fetch_entries].
  apply steps_bind.
  { apply steps_frame. intros w. now rewrite parse_entry_published_run. }
  intros d. apply steps_bind; [apply steps_frame; reflexivity|].
  intros [|]; [apply IH|].
  apply steps_bind; [apply steps_frame; reflexivity|]. intros in_utc.
  apply steps_bind; [apply steps_save_article|intros _; apply IH].
Qed.

Lemma steps_fetch_offices P g cap offices :
  forall results, steps R (fetch_offices P g offices cap results).
Proof.
  induction offices as [|fo rest IH]; intros results;
    [apply steps_frame; reflexivity|].
  cbn [fetch_offices].
  apply steps_bind; [apply steps_frame; reflexivity|].
  intros f. destruct (bozo f); [apply IH|].
  apply steps_bind; [apply steps_fetch_entries|].
  intros results'. apply IH.
Qed.

Lemma steps_script P ui :
  (forall t, R t []) -> steps R (script P ui).
Proof.
  intros R_clear. unfold script.
  apply steps_bind.
  { unfold load_globals. apply steps_bind; [apply steps_frame; reflexivity|].
    intros now. apply steps_bind; [apply steps_frame; reflexivity|].
    intros c. apply steps_frame. reflexivity. }
  intros g. apply steps_bind; [apply steps_frame; reflexivity|]. intros _.
  apply steps_bind.
  { destruct (clear_clicked ui); [|apply steps_frame; reflexivity].
    intros w. apply R_clear. }
  intros _. apply steps_bind.
  { destruct (fetch_clicked ui); [|apply steps_frame; reflexivity].
    apply steps_bind; [apply steps_fetch_offices|].
    intros _. apply steps_frame. reflexivity. }
  intros _. apply steps_frame. reflexivity.
Qed.

End Steps.

Lemma link_taken_app l t1 t2 :
  link_taken l (t1 ++ t2) = link_taken l t1 || link_taken l t2.
Proof. unfold link_taken. apply existsb_app. Qed.

Lemma appends_new_refl t : appends_new t t.
Proof. exists []. rewrite app_nil_r. split; [reflexivity|intros r []]. Qed.

Lemma appends_new_trans t1 t2 t3 :
  appends_new t1 t2 -> appends_new t2 t3 -> appends_new t1 t3.
Proof.
  intros (m1 & -> & H1) (m2 & -> & H2).
  exists (m1 ++ m2). split; [now rewrite app_assoc|].
  intros r Hr. apply in_app_or in Hr. destruct Hr as [Hr|Hr]; [auto|].
  apply H2 in Hr. rewrite link_taken_app in Hr.
  apply orb_false_iff in Hr. tauto.
Qed.

Lemma appends_new_store t a : appends_new t (store t a).
Proof.
  unfold store. destruct (link_taken (art_link a) t) eqn:E;
    [apply appends_new_refl|].
  eexists. split; [reflexivity|].
  intros r [<-|[]]. exact E.
Qed.

(** X4. A fetch only ever adds to the table: for any cutoff, names and
    cap, and whether the run returns or not, the table afterwards is the
    table before, row for row, followed by new rows, and the link of each
    new row is one the table did not hold.  No stored row is changed or
    removed. *)
Theorem fetch_news_google_appends
        (P : platform) (g : globals) (offices : list string)
        (per_office : option Z) (w : world) :
  appends_new (news w)
              (news (snd (fetch_news_google P g offices per_office w))).
Proof.
  unfold fetch_news_google.
  apply (steps_fetch_offices appends_new appends_new_refl appends_new_trans
                             appends_new_store).
Qed.

(** X5. One row per link, always: a fetch leaves a table of distinct links
    a table of distinct links, and so does every sequence of runs of the
    script, fetching and clearing in any order. *)
Theorem script_runs_unique_links (P : platform) :
  (forall g offices per_office w,
      unique_links (news w) ->
      unique_links (news (snd (fetch_news_google P g offices per_office w))))
  /\ (forall uis w,
         unique_links (news w) ->
         unique_links (news (script_runs P uis w))).
Proof.
  assert (Hrefl : forall t, keeps_unique_links t t) by (intros t H; exact H).
  assert (Htrans : forall t1 t2 t3, keeps_unique_links t1 t2 ->
                                    keeps_unique_links t2 t3 ->
                                    keeps_unique_links t1 t3)
    by (intros t1 t2 t3 H1 H2 H; auto).
  assert (Hstore : forall t a, keeps_unique_links t (store t a))
    by (intros t a H; apply unique_links_store; exact H).
  split.
  - intros g offices per_office w. unfold fetch_news_google.
    apply (steps_fetch_offices keeps_unique_links Hrefl Htrans Hstore).
  - intros uis. induction uis as [|ui uis IH]; intros w Hw; [exact Hw|].
    cbn [script_runs]. apply IH.
    apply (steps_script keeps_unique_links Hrefl Htrans Hstore P ui);
      [|exact Hw].
    intros t _. constructor.
Qed.

Lemma script_runs_unique_links_witness :
  unique_links
    (news (script_runs Demo.platform
             [mkui "Acme Capital" true false; mkui "Acme Capital" true false;
              mkui "Borealis Trust" true false]
             (mkworld [Demo.row_at_cutoff] 0))).
Proof.
  destruct (script_runs_unique_links Demo.platform) as [_ H].
  apply H. unfold unique_links. simpl.
  constructor; [simpl; tauto|constructor].
Defined.

(** ** Trimming *)

Lemma lstrip_unfold s :
  lstrip s = match drop_space s with
             | Some r => lstrip r
             | None => s
             end.
Proof.
  destruct s as [|c1 s1]; [reflexivity|]. cbn [lstrip drop_space].
  destruct (is_space c1); [reflexivity|].
  destruct s1 as [|c2 s2]; [reflexivity|].
  destruct (is_space2 c1 c2); [reflexivity|].
  destruct s2 as [|c3 s3]; [reflexivity|].
  destruct (is_space3 c1 c2 c3); reflexivity.
Qed.

Lemma drop_space_length s r :
  drop_space s = Some r -> (String.length r < String.length s)%nat.
Proof.
  destruct s as [|c1 s1]; [discriminate|]. cbn [drop_space].
  destruct (is_space c1); [intros [= <-]; simpl; lia|].
  destruct s1 as [|c2 s2]; [discriminate|].
  destruct (is_space2 c1 c2); [intros [= <-]; simpl; lia|].
  destruct s2 as [|c3 s3]; [discriminate|].
  destruct (is_space3 c1 c2 c3); [intros [= <-]; simpl; lia|discriminate].
Qed.

Lemma drop_space_app s r t :
  drop_space s = Some r -> drop_space (s ++ t) = Some (r ++ t)%string.
Proof.
  destruct s as [|c1 s1]; [discriminate|]. cbn [drop_space String.append].
  destruct (is_space c1); [intros [= <-]; reflexivity|].
  destruct s1 as [|c2 s2]; [discriminate|]. cbn [String.append].
  destruct (is_space2 c1 c2); [intros [= <-]; reflexivity|].
  destruct s2 as [|c3 s3]; [discriminate|]. cbn [String.append].
  destruct (is_space3 c1 c2 c3); [intros [= <-]; reflexivity|discriminate].
Qed.

Lemma drop_space_prefix_none p w :
  drop_space (p ++ w) = None -> drop_space p = None.
Proof.
  intros H. destruct (drop_space p) as [r|] eqn:E; [|reflexivity].
  rewrite (drop_space_app p r w E) in H. discriminate H.
Qed.

(** Induction along [lstrip]: from the text after a leading white space
    character to the text. *)
Lemma lstrip_induction (Q : string -> Prop) :
  (forall s, (forall r, drop_space s = Some r -> Q r) -> Q s) ->
  forall s, Q s.
Proof.
  intros Hstep s.
  assert (H : forall n s, (String.length s < n)%nat -> Q s).
  { induction n as [|n IH]; intros t Ht; [lia|].
    apply Hstep. intros r Hr. apply IH.
    apply drop_space_length in Hr. lia. }
  apply (H (S (String.length s))). lia.
Qed.

Lemma lstrip_clean s : drop_space (lstrip s) = None.
Proof.
  induction s as [s IH] using lstrip_induction.
  rewrite lstrip_unfold. destruct (drop_space s) as [r|] eqn:E; auto.
Qed.

Lemma lstrip_id s : drop_space s = None -> lstrip s = s.
Proof. intros H. rewrite lstrip_unfold, H. reflexivity. Qed.

Lemma blank_app a t : blank a = true -> lstrip (a ++ t) = lstrip t.
Proof.
  induction a as [a IH] using lstrip_induction. unfold blank.
  rewrite (lstrip_unfold a). destruct (drop_space a) as [r|] eqn:E.
  - intros Hr. rewrite (lstrip_unfold (a ++ t)), (drop_space_app a r t E).
    apply IH; [reflexivity|exact Hr].
  - destruct a; [reflexivity|discriminate].
Qed.

Lemma rstrip_split s :
  exists w, s = (rstrip s ++ w)%string /\ blank w = true.
Proof.
  induction s as [|c s (w & Hw & Hb)].
  - exists EmptyString. split; reflexivity.
  - cbn [rstrip]. destruct (blank (String c s)) eqn:E.
    + exists (String c s). split; [reflexivity|exact E].
    + exists w. split; [|exact Hb]. cbn [String.append]. now rewrite <- Hw.
Qed.

Lemma blank_cons_rstrip c s :
  blank (String c (rstrip s)) = true -> blank (String c s) = true.
Proof.
  intros H. destruct (rstrip_split s) as (w & Hw & Hb).
  unfold blank. rewrite Hw.
  change (String c (rstrip s ++ w)) with (String c (rstrip s) ++ w)%string.
  rewrite (blank_app _ w H). exact Hb.
Qed.

Lemma rstrip_idem s : rstrip (rstrip s) = rstrip s.
Proof.
  induction s as [|c s IH]; [reflexivity|].
  cbn [rstrip]. destruct (blank (String c s)) eqn:E; [reflexivity|].
  cbn [rstrip]. rewrite IH.
  destruct (blank (String c (rstrip s))) eqn:E'; [|reflexivity].
  apply blank_cons_rstrip in E'. congruence.
Qed.

Lemma rstrip_no_blank_suffix s :
  forall pre suf, rstrip s = (pre ++ suf)%string -> blank suf = true ->
                  suf = EmptyString.
Proof.
  induction s as [|c s IH]; intros pre suf H Hb.
  - destruct pre; [exact (eq_sym H)|discriminate H].
  - cbn [rstrip] in H. destruct (blank (String c s)) eqn:E.
    + destruct pre; [exact (eq_sym H)|discriminate H].
    + destruct pre as [|p pre]; cbn [String.append] in H.
      * subst suf. apply blank_cons_rstrip in Hb. congruence.
      * inversion H as [[Hp Hrest]]. eapply IH; eassumption.
Qed.

Lemma strip_trimmed s : trimmed (strip s).
Proof.
  unfold trimmed, strip. split; [|apply rstrip_no_blank_suffix].
  destruct (rstrip_split (lstrip s)) as (w & Hw & _).
  apply (drop_space_prefix_none _ w). rewrite <- Hw. apply lstrip_clean.
Qed.

Lemma strip_idem s : strip (strip s) = strip s.
Proof.
  unfold strip at 1.
  rewrite lstrip_id by (apply (proj1 (strip_trimmed s))).
  unfold strip. apply rstrip_idem.
Qed.

Lemma nonempty_strip s : nonempty (strip s) = negb (blank s).
Proof.
  unfold strip, blank.
  pose proof (lstrip_clean s) as Hc.
  destruct (lstrip s) as [|c t] eqn:E; [reflexivity|].
  cbn [rstrip]. unfold blank. rewrite (lstrip_id _ Hc). reflexivity.
Qed.

(** ** What a fetch returns and what it stores *)

Lemma in_slice_to {A} (n : Z) (xs : list A) (x : A) :
  In x (slice_to n xs) -> In x xs.
Proof.
  unfold slice_to.
  destruct (n <? 0); intros H;
    match type of H with
    | In _ (firstn ?k _) =>
        rewrite <- (firstn_skipn k xs); apply in_or_app; now left
    end.
Qed.

Lemma passing_entries_shape P c fo es :
  forall k a,
    In a (passed (passing_entries P c fo es k)) ->
    exists e d, In e es /\ a = article_of fo e d
                /\ in_window c d = true /\ tzinfo d = Some UTC.
Proof.
  induction es as [|e es IH]; intros k a Ha; [destruct Ha|].
  cbn [passing_entries] in Ha.
  pose proof (timestamp_chain_aware P e k) as Hd.
  destruct (timestamp_chain P e k) as [[d|] k1]; cbn [fst] in Hd;
    [|destruct Ha].
  specialize (Hd d eq_refl). specialize (IH k1 a). cbv zeta in Ha.
  destruct (in_window c d) eqn:Ew; cbn [passed] in Ha.
  - destruct Ha as [<-|Ha].
    + exists e, d. simpl. auto.
    + destruct (IH Ha) as (e' & d' & He' & H'). exists e', d'. simpl. auto.
  - destruct (IH Ha) as (e' & d' & He' & H'). exists e', d'. simpl. auto.
Qed.

Lemma passing_offices_shape P c cap offices :
  forall k a,
    In a (passed (passing_offices P c offices cap k)) ->
    exists fo e d,
      In fo offices /\ a = article_of fo e d
      /\ in_window c d = true /\ tzinfo d = Some UTC.
Proof.
  induction offices as [|fo rest IH]; intros k a Ha; [destruct Ha|].
  cbn [passing_offices] in Ha.
  destruct (bozo (feedparser_parse P k (feed_url fo))).
  - destruct (IH _ _ Ha) as (fo' & e & d & Hfo & H).
    exists fo', e, d. simpl. auto.
  - pose proof (passing_entries_shape P c fo
                  (slice_to cap (entries (feedparser_parse P k (feed_url fo))))
                  (S k) a) as He.
    cbv zeta in Ha.
    destruct (completed (passing_entries P c fo _ (S k))).
    + cbn [passed] in Ha. apply in_app_or in Ha. destruct Ha as [Ha|Ha].
      * destruct (He Ha) as (e & d & _ & H). exists fo, e, d. simpl. auto.
      * destruct (IH _ _ Ha) as (fo' & e & d & Hfo & H).
        exists fo', e, d. simpl. auto.
    + destruct (He Ha) as (e & d & _ & H). exists fo, e, d. simpl. auto.
Qed.

(** X6. Every record a fetch returns, and every entry it has passed and
    stored when it ends in an exception, is for one of the tracked names,
    names "Google News" as its source, has a title and a link without
    white space at either end, and is dated by the text of a UTC-aware
    instant that is not before the cutoff. *)
Theorem fetch_news_google_records
        (P : platform) (g : globals) (offices : list string)
        (per_office : option Z) (w : world) :
  bound_at_load P g ->
  let run := passing_offices P (NEWS_CUTOFF_DATE g) offices
                             (with_default 20 per_office) (tick w) in
  fetch_news_google P g offices per_office w = outcome [] (news w) run
  /\ (forall arts w',
         fetch_news_google P g offices per_office w = (Ok arts, w') ->
         arts = passed run)
  /\ Forall (fun a =>
               In (art_family_office a) offices
               /\ art_source a = "Google News"
               /\ trimmed (art_title a) /\ trimmed (art_link a)
               /\ exists d, art_published a = isoformat d
                            /\ tzinfo d = Some UTC
                            /\ compare_fields d (NEWS_CUTOFF_DATE g) <> Lt)
            (passed run).
Proof.
  intros Hg. apply bound_at_load_cutoff in Hg. destruct Hg as [Hg _].
  cbv zeta. unfold fetch_news_google. rewrite (fetch_offices_run P g _ Hg).
  split; [reflexivity|]. split.
  - intros arts w'. unfold outcome.
    destruct (completed _); [|discriminate]. cbn [app]. congruence.
  - apply Forall_forall. intros a Ha.
    apply passing_offices_shape in Ha.
    destruct Ha as (fo & e & d & Hfo & -> & Hw & Hd).
    unfold article_of. cbn.
    split; [exact Hfo|]. split; [reflexivity|].
    split; [apply strip_trimmed|]. split; [apply strip_trimmed|].
    exists d. split; [reflexivity|]. split; [exact Hd|].
    unfold in_window in Hw. destruct (compare_fields d (NEWS_CUTOFF_DATE g));
      congruence.
Qed.

Lemma fetch_news_google_records_witness :
  exists arts w',
    fetch_news_google Demo.platform Demo.globals
                      ["Acme Capital"; "Borealis Trust"] None (mkworld [] 1)
    = (Ok arts, w')
    /\ Forall (fun a => In (art_family_office a)
                           ["Acme Capital"; "Borealis Trust"]
                        /\ trimmed (art_title a)) arts.
Proof.
  destruct (fetch_news_google_records
              Demo.platform Demo.globals ["Acme Capital"; "Borealis Trust"]
              None (mkworld [] 1) demo_globals_bound)
    as (E & _ & H).
  eexists. eexists. split; [rewrite E; reflexivity|].
  eapply Forall_impl; [|exact H]. intros a (H1 & _ & H3 & _).
  split; [exact H1|exact H3].
Defined.

Lemma link_taken_store_mono l t a :
  link_taken l t = true -> link_taken l (store t a) = true.
Proof.
  intros H. unfold store. destruct (link_taken (art_link a) t); [exact H|].
  rewrite link_taken_app, H. reflexivity.
Qed.

Lemma link_taken_store_self t a : link_taken (art_link a) (store t a) = true.
Proof.
  unfold store. destruct (link_taken (art_link a) t) eqn:E; [exact E|].
  rewrite link_taken_app. unfold link_taken at 2. cbn [existsb link].
  rewrite String.eqb_refl. now rewrite orb_true_r.
Qed.

Lemma link_taken_store_all_mono l arts :
  forall t, link_taken l t = true -> link_taken l (store_all t arts) = true.
Proof.
  induction arts as [|a arts IH]; intros t H; [exact H|].
  cbn [store_all fold_left]. apply IH. apply link_taken_store_mono. exact H.
Qed.

Lemma store_all_taken arts :
  forall t a, In a arts -> link_taken (art_link a) (store_all t arts) = true.
Proof.
  induction arts as [|x arts IH]; intros t a Ha; [destruct Ha|].
  cbn [store_all fold_left]. destruct Ha as [->|Ha].
  - apply link_taken_store_all_mono. apply link_taken_store_self.
  - apply IH. exact Ha.
Qed.

Lemma store_all_origin arts :
  forall t r,
    In r (store_all t arts) ->
    In r t
    \/ exists a, In a arts
                 /\ mkarticle (family_office r) (title r) (link r)
                              (published r) (source r) = a.
Proof.
  induction arts as [|x arts IH]; intros t r Hr; [now left|].
  cbn [store_all fold_left] in Hr. apply IH in Hr.
  destruct Hr as [Hr|(a & Ha & E)].
  - unfold store in Hr. destruct (link_taken (art_link x) t); [now left|].
    apply in_app_or in Hr. destruct Hr as [Hr|[<-|[]]]; [now left|].
    right. exists x. split; [now left|]. destruct x; reflexivity.
  - right. exists a. split; [now right|exact E].
Qed.

Lemma store_all_length arts :
  forall t, (List.length (store_all t arts)
             <= List.length t + List.length arts)%nat.
Proof.
  induction arts as [|x arts IH]; intros t; cbn [store_all fold_left];
    [simpl; lia|].
  specialize (IH (store t x)). unfold store_all in IH.
  assert (List.length (store t x) <= S (List.length t))%nat.
  { unfold store. destruct (link_taken (art_link x) t); [lia|].
    rewrite length_app. simpl. lia. }
  simpl. lia.
Qed.

(** X7. When a fetch ends, returning or not, the link of every entry that
    passed the filter in the run is in the table, and the table holds
    nothing new but such entries: each row is a row from before the run or
    has the five fields of an entry that passed.  The table has grown by no
    more rows than entries passed.  When the run returns, the entries that
    passed are the records it returns. *)
Theorem fetch_news_google_stores_returned
        (P : platform) (g : globals) (offices : list string)
        (per_office : option Z) (w : world) :
  bound_at_load P g ->
  let run := passing_offices P (NEWS_CUTOFF_DATE g) offices
                             (with_default 20 per_office) (tick w) in
  let w' := snd (fetch_news_google P g offices per_office w) in
  fetch_news_google P g offices per_office w = outcome [] (news w) run
  /\ (forall a, In a (passed run) -> link_taken (art_link a) (news w') = true)
  /\ (forall r, In r (news w') ->
                In r (news w)
                \/ In (mkarticle (family_office r) (title r) (link r)
                                 (published r) (source r)) (passed run))
  /\ (List.length (news w')
      <= List.length (news w) + List.length (passed run))%nat
  /\ (forall arts, fst (fetch_news_google P g offices per_office w) = Ok arts ->
                   arts = passed run).
Proof.
  intros Hg. apply bound_at_load_cutoff in Hg. destruct Hg as [Hg _].
  cbv zeta. unfold fetch_news_google. rewrite (fetch_offices_run P g _ Hg).
  split; [reflexivity|]. unfold outcome. cbn [snd fst news].
  split; [|split; [|split]].
  - intros a Ha. apply store_all_taken. exact Ha.
  - intros r Hr. apply store_all_origin in Hr.
    destruct Hr as [Hr|(a & Ha & <-)]; [now left|now right].
  - apply store_all_length.
  - intros arts. destruct (completed _); [|discriminate]. cbn [app].
    congruence.
Qed.

Lemma fetch_news_google_stores_returned_witness :
  let w' := snd (fetch_news_google Demo.platform Demo.globals
                                   ["Nan Holdings"] None
                                   (mkworld [Demo.row_at_cutoff] 1)) in
  fst (fetch_news_google Demo.platform Demo.globals ["Nan Holdings"] None
                         (mkworld [Demo.row_at_cutoff] 1))
  = Raise ValueError
  /\ forall r, In r (news w') ->
               In r [Demo.row_at_cutoff]
               \/ In (mkarticle (family_office r) (title r) (link r)
                                (published r) (source r))
                     [mkarticle "Nan Holdings" "Acme Capital buys a stake"
                                "https://x/1" "2024-02-25T12:00:00+00:00"
                                "Google News"].
Proof.
  destruct (fetch_news_google_stores_returned
              Demo.platform Demo.globals ["Nan Holdings"] None
              (mkworld [Demo.row_at_cutoff] 1) demo_globals_bound)
    as (E & _ & H & _).
  split; [rewrite E; reflexivity|exact H].
Defined.

Lemma passing_entries_length P c fo es :
  forall k, (List.length (passed (passing_entries P c fo es k))
             <= List.length es)%nat.
Proof.
  induction es as [|e es IH]; intros k; [apply le_n|].
  cbn [passing_entries].
  destruct (timestamp_chain P e k) as [[d|] k1]; [|simpl; lia].
  specialize (IH k1). cbv zeta.
  destruct (in_window c d); simpl; lia.
Qed.

Lemma passing_entries_office P c fo es :
  forall k a, In a (passed (passing_entries P c fo es k)) ->
              art_family_office a = fo.
Proof.
  intros k a Ha. apply passing_entries_shape in Ha.
  destruct Ha as (e & d & _ & -> & _). reflexivity.
Qed.

Lemma filter_none {A} (f : A -> bool) (l : list A) :
  (forall a, In a l -> f a = false) -> filter f l = [].
Proof.
  induction l as [|x l IH]; intros H; [reflexivity|].
  simpl. rewrite (H x) by now left. apply IH. intros a Ha. apply H. now right.
Qed.

Lemma filter_length_le {A} (f : A -> bool) (l : list A) :
  (List.length (filter f l) <= List.length l)%nat.
Proof.
  induction l as [|x l IH]; simpl; [lia|].
  destruct (f x); simpl; lia.
Qed.

(** The records of one name among the entries that passed in a run. *)
Lemma passing_offices_per_name P c cap offices name :
  0 <= cap ->
  forall k,
    (List.length (filter (fun a => String.eqb (art_family_office a) name)
                         (passed (passing_offices P c offices cap k)))
     <= Z.to_nat cap * count_occ string_dec offices name)%nat.
Proof.
  intros Hcap. induction offices as [|fo rest IH]; intros k; [simpl; lia|].
  cbn [passing_offices count_occ].
  destruct (bozo (feedparser_parse P k (feed_url fo))).
  - specialize (IH (S k)). destruct (string_dec fo name); lia.
  - cbv zeta.
    set (here := passing_entries P c fo
                   (slice_to cap (entries (feedparser_parse P k (feed_url fo))))
                   (S k)).
    assert (Hhere : (List.length
                       (filter (fun a => String.eqb (art_family_office a) name)
                               (passed here))
                     <= if string_dec fo name then Z.to_nat cap else 0)%nat).
    { destruct (string_dec fo name) as [E|E].
      - eapply Nat.le_trans; [apply filter_length_le|].
        eapply Nat.le_trans; [apply passing_entries_length|].
        rewrite slice_to_firstn by exact Hcap. rewrite length_firstn. lia.
      - rewrite filter_none; [simpl; lia|].
        intros a Ha. apply passing_entries_office in Ha. rewrite Ha.
        apply String.eqb_neq. exact E. }
    destruct (completed here).
    + cbn [passed]. rewrite filter_app, length_app.
      specialize (IH (ended_at here)).
      destruct (string_dec fo name); lia.
    + destruct (string_dec fo name); lia.
Qed.

(** X8. For a cap that is a count (not negative), a fetch passes, and so
    returns, at most [per_office] records for each tracked name, as often
    as the name is on the list; with a cap of 0 it returns the empty list
    and leaves the table as it was. *)
Theorem fetch_news_google_at_most_cap
        (P : platform) (g : globals) (offices : list string)
        (per_office : Z) (w : world) :
  bound_at_load P g ->
  0 <= per_office ->
  let run := passing_offices P (NEWS_CUTOFF_DATE g) offices per_office
                             (tick w) in
  fetch_news_google P g offices (Some per_office) w = outcome [] (news w) run
  /\ (forall name,
         (List.length (filter (fun a => String.eqb (art_family_office a) name)
                              (passed run))
          <= Z.to_nat per_office * count_occ string_dec offices name)%nat)
  /\ (per_office = 0 ->
      exists k, fetch_news_google P g offices (Some per_office) w
                = (Ok [], mkworld (news w) k)).
Proof.
  intros Hg Hcap. apply bound_at_load_cutoff in Hg. destruct Hg as [Hg _].
  cbv zeta. unfold fetch_news_google. rewrite (fetch_offices_run P g _ Hg).
  cbn [with_default]. split; [reflexivity|]. split.
  - intros name. apply passing_offices_per_name. exact Hcap.
  - intros ->.
    assert (H0 : forall k,
               passed (passing_offices P (NEWS_CUTOFF_DATE g) offices 0 k) = []
               /\ completed (passing_offices P (NEWS_CUTOFF_DATE g) offices 0 k)
                  = true).
    { clear. induction offices as [|fo rest IH]; intros k;
        [split; reflexivity|].
      cbn [passing_offices].
      destruct (bozo (feedparser_parse P k (feed_url fo))); [apply IH|].
      cbv zeta. change (slice_to 0 ?l) with (@nil entry).
      cbn [passing_entries completed passed ended_at app]. apply IH. }
    destruct (H0 (tick w)) as [Hp Hc].
    eexists. unfold outcome. rewrite Hp, Hc. reflexivity.
Qed.

Lemma fetch_news_google_at_most_cap_witness :
  (List.length
     (filter (fun a => String.eqb (art_family_office a) "Acme Capital")
             (passed (passing_offices Demo.platform Demo.cutoff
                        ["Acme Capital"; "Borealis Trust"] 1 1)))
   <= 1)%nat.
Proof.
  destruct (fetch_news_google_at_most_cap
              Demo.platform Demo.globals ["Acme Capital"; "Borealis Trust"] 1
              (mkworld [] 1) demo_globals_bound ltac:(lia))
    as (_ & H & _).
  apply (H "Acme Capital").
Defined.

(** ** The provider query *)

Lemma unquote_plus_quote_plus_char (c : ascii) (s r : string) :
  unquote_plus (quote_plus (String c s) ++ r)
  = String c (unquote_plus (quote_plus s ++ r)).
Proof.
  destruct c as [b0 b1 b2 b3 b4 b5 b6 b7].
  destruct b0, b1, b2, b3, b4, b5, b6, b7; reflexivity.
Qed.

Lemma unquote_plus_quote_plus (s r : string) :
  unquote_plus (quote_plus s ++ r) = (s ++ unquote_plus r)%string.
Proof.
  induction s as [|c s IH]; [reflexivity|].
  rewrite unquote_plus_quote_plus_char, IH. reflexivity.
Qed.

Lemma string_length_app (a b : string) :
  String.length (a ++ b) = (String.length a + String.length b)%nat.
Proof. induction a as [|c a IH]; simpl; [reflexivity|now rewrite IH]. Qed.

Lemma string_app_cancel_l (p x y : string) :
  (p ++ x = p ++ y)%string -> x = y.
Proof.
  induction p as [|c p IH]; simpl; intros H; [exact H|].
  inversion H. auto.
Qed.

Lemma string_app_cancel_r (u : string) :
  forall x y, (x ++ u = y ++ u)%string -> x = y.
Proof.
  induction x as [|c x IH]; intros [|d y] H; simpl in H.
  - reflexivity.
  - apply (f_equal String.length) in H. simpl in H.
    rewrite string_length_app in H. lia.
  - apply (f_equal String.length) in H. simpl in H.
    rewrite string_length_app in H. lia.
  - inversion H. f_equal. auto.
Qed.

(** X9. Different names are asked for under different addresses: the
    provider address built for a name determines the name, whatever
    characters the name is made of. *)
Theorem feed_url_injective (a b : string) :
  a <> b -> feed_url a <> feed_url b.
Proof.
  unfold feed_url. intros Hab H. apply Hab.
  apply string_app_cancel_l in H.
  apply (f_equal unquote_plus) in H.
  rewrite !unquote_plus_quote_plus in H.
  apply string_app_cancel_r in H. exact H.
Qed.

Lemma feed_url_injective_witness :
  feed_url "Acme Capital" <> feed_url "Acme+Capital".
Proof.
  apply feed_url_injective. intros H. discriminate H.
Defined.

Lemma string_app_nil_r (s : string) : (s ++ "")%string = s.
Proof. induction s as [|c s IH]; simpl; [reflexivity|now rewrite IH]. Qed.

Lemma quote_plus_char_safe (c : ascii) (s : string) :
  exists q, quote_plus (String c s) = (q ++ quote_plus s)%string
            /\ Forall (fun x => query_safe x = true) (list_ascii_of_string q).
Proof.
  destruct c as [b0 b1 b2 b3 b4 b5 b6 b7].
  destruct b0, b1, b2, b3, b4, b5, b6, b7;
    (eexists (String _ EmptyString); split;
     [reflexivity|repeat constructor])
    || (eexists (String _ (String _ (String _ EmptyString))); split;
        [reflexivity|repeat constructor]).
Qed.

Lemma list_ascii_of_string_app (a b : string) :
  list_ascii_of_string (a ++ b)
  = list_ascii_of_string a ++ list_ascii_of_string b.
Proof. induction a as [|c a IH]; simpl; [reflexivity|now rewrite IH]. Qed.

Lemma quote_plus_safe (s : string) :
  Forall (fun x => query_safe x = true) (list_ascii_of_string (quote_plus s)).
Proof.
  induction s as [|c s IH]; [constructor|].
  destruct (quote_plus_char_safe c s) as (q & -> & Hq).
  rewrite list_ascii_of_string_app. apply Forall_app. split; assumption.
Qed.

(** X10. A name cannot reach beyond its place in the provider address: the
    address is the fixed search address, the quoted name and the fixed
    locale parameters, and the quoted name is made of letters, digits,
    [_.-~], [+] and [%] only, so it holds no [&], [=], [#], [?], [/] or
    blank. *)
Theorem feed_url_query_safe (fo : string) :
  exists q,
    feed_url fo
    = ("https://news.google.com/rss/search?q=" ++ q
       ++ "&hl=en-PH&gl=PH&ceid=PH:en")%string
    /\ unquote_plus q = fo
    /\ forall c, In c (list_ascii_of_string q) ->
                 query_safe c = true
                 /\ ~ In c (list_ascii_of_string "&=#?/ ").
Proof.
  exists (quote_plus fo). split; [reflexivity|]. split.
  - pose proof (unquote_plus_quote_plus fo EmptyString) as H.
    rewrite !string_app_nil_r in H. exact H.
  - intros c Hc.
    pose proof (quote_plus_safe fo) as Hs. rewrite Forall_forall in Hs.
    specialize (Hs c Hc). split; [exact Hs|].
    simpl. intros [<-|[<-|[<-|[<-|[<-|[<-|[]]]]]]]; discriminate Hs.
Qed.

(** ** The names the page tracks *)

Lemma blank_append a t : blank a = true -> blank (a ++ t) = blank t.
Proof. intros H. unfold blank. now rewrite (blank_app a t H). Qed.

Lemma blank_line_feed t : blank (String (ascii_of_nat 10) t) = blank t.
Proof. reflexivity. Qed.

Lemma split_lines_cons s : exists h t, split_lines s = h :: t.
Proof.
  induction s as [|c s (h & t & IH)]; simpl; [eauto|].
  destruct (Ascii.eqb c (ascii_of_nat 10)); [eauto|].
  rewrite IH. eauto.
Qed.

Lemma join_split_lines s : join_lines (split_lines s) = s.
Proof.
  induction s as [|c s IH]; [reflexivity|].
  cbn [split_lines].
  destruct (split_lines_cons s) as (h & t & E). rewrite E in *.
  destruct (Ascii.eqb_spec c (ascii_of_nat 10)) as [->|Hc].
  - cbn [join_lines String.append]. cbn [join_lines] in IH.
    now rewrite IH.
  - cbn [join_lines] in *. destruct t; cbn [String.append]; now rewrite IH.
Qed.

Lemma blank_join_lines lines :
  forallb blank lines = true -> blank (join_lines lines) = true.
Proof.
  induction lines as [|h t IH]; [reflexivity|].
  cbn [forallb join_lines]. intros H. apply andb_prop in H.
  destruct H as [Hh Ht]. destruct t as [|h' t']; [exact Hh|].
  rewrite (blank_append _ _ Hh), blank_line_feed. apply IH. exact Ht.
Qed.

Lemma forallb_false_in {A} (f : A -> bool) (l : list A) :
  forallb f l = false -> exists x, In x l /\ f x = false.
Proof.
  induction l as [|x l IH]; [discriminate|]. cbn [forallb].
  destruct (f x) eqn:E.
  - intros H. destruct (IH H) as (y & Hy & Hf). exists y. simpl. auto.
  - intros _. exists x. simpl. auto.
Qed.

(** A text that is not blank has a line that is not blank. *)
Lemma split_lines_not_blank s :
  blank s = false -> exists line, In line (split_lines s) /\ blank line = false.
Proof.
  intros H. destruct (forallb blank (split_lines s)) eqn:E.
  - apply blank_join_lines in E. rewrite join_split_lines in E. congruence.
  - apply forallb_false_in in E. destruct E as (line & Hin & Hline).
    exists line. split; assumption.
Qed.

(** X11. The page never fetches for nothing and never for a blank: the
    list of tracked names is never empty, and every name on it has a
    character and no white space, as [str.strip] sees it, at either end.
    An input of white space only stands for the three built-in names. *)
Theorem tracked_offices_names (ui : ui_input) :
  tracked_offices ui <> []
  /\ Forall (fun fo => fo <> EmptyString /\ trimmed fo) (tracked_offices ui)
  /\ (blank (family_offices_input ui) = true ->
      tracked_offices ui = DEFAULT_FAMILY_OFFICES).
Proof.
  unfold tracked_offices.
  rewrite nonempty_strip.
  destruct (blank (family_offices_input ui)) eqn:E; cbn [negb].
  - split; [discriminate|]. split; [|reflexivity].
    unfold DEFAULT_FAMILY_OFFICES.
    repeat (apply Forall_cons; [split; [discriminate|]|]);
      [| | |apply Forall_nil];
      match goal with
      | |- trimmed ?lit =>
          change lit with (strip lit); apply strip_trimmed
      end.
  - set (raw := strip (family_offices_input ui)).
    assert (Hraw : blank raw = false).
    { apply negb_true_iff. rewrite <- nonempty_strip. unfold raw.
      rewrite strip_idem, nonempty_strip, E. reflexivity. }
    split; [|split; [|discriminate]].
    + destruct (split_lines_not_blank raw Hraw) as (line & Hin & Hline).
      intros Hnil.
      assert (Hmem : In (strip line)
                        (map strip
                             (filter (fun fo => nonempty (strip fo))
                                     (split_lines raw)))).
      { apply in_map. apply filter_In. split; [exact Hin|].
        now rewrite nonempty_strip, Hline. }
      rewrite Hnil in Hmem. destruct Hmem.
    + apply Forall_forall. intros fo Hfo.
      apply in_map_iff in Hfo. destruct Hfo as (line & <- & Hline).
      apply filter_In in Hline. destruct Hline as [_ Hline].
      split; [|apply strip_trimmed].
      intros Hempty. rewrite Hempty in Hline. discriminate Hline.
Qed.

Lemma tracked_offices_names_witness :
  tracked_offices
    (mkui (Demo.no_break_space ++ " " ++ Demo.ideographic_space) true false)
  = DEFAULT_FAMILY_OFFICES.
Proof.
  destruct (tracked_offices_names
              (mkui (Demo.no_break_space ++ " " ++ Demo.ideographic_space)
                    true false)) as (_ & _ & H).
  apply H. reflexivity.
Defined.

(** White space beyond ASCII goes as well: a name between a no-break space
    and an ideographic space comes out bare, and a line of such spaces is
    no name. *)
Example strip_unicode_space :
  strip (Demo.no_break_space ++ " Acme Capital" ++ Demo.ideographic_space)
  = "Acme Capital"
  /\ tracked_offices
       (mkui (" Acme Capital" ++ Demo.no_break_space
              ++ String (ascii_of_nat 10) Demo.ideographic_space
              ++ String (ascii_of_nat 10) "Borealis Trust ")
             true false)
     = ["Acme Capital"; "Borealis Trust"].
Proof. split; reflexivity. Qed.

(** ** The normalizer on a full breakdown *)

(** X12. A published breakdown with six or more fields is read field by
    field, from year to second, when those name a real calendar time: the
    timestamp has these fields, no microseconds, the UTC zone, and neither
    the other fields of the entry nor the clock are looked at.  When they
    do not (a month 13, a 30 February, a second 60), the entry is dated as
    if it had no published breakdown. *)
Theorem parse_entry_published_breakdown
        (P : platform) (e : entry) (w : world)
        (y m d h mi s : Z) (more : list Z) :
  e_published_parsed e = Some (y :: m :: d :: h :: mi :: s :: more) ->
  (check_date_fields y m d && check_time_fields h mi s 0 = true ->
   parse_entry_published P e w
   = (Ok (At (mkdt y m d h mi s 0 (Some UTC))), w))
  /\ (check_date_fields y m d && check_time_fields h mi s 0 = false ->
      parse_entry_published P e w
      = parse_entry_published
          P (mkentry (e_title e) (e_link e) None (e_updated_parsed e)
                     (e_published e)) w).
Proof.
  intros He.
  assert (Hs : structured_time (e_published_parsed e)
               = if check_date_fields y m d && check_time_fields h mi s 0
                 then Some (mkdt y m d h mi s 0 (Some UTC)) else None).
  { rewrite He. unfold structured_time. cbn [truthy_tuple firstn].
    unfold datetime_of_args, datetime_new.
    destruct (check_date_fields y m d && check_time_fields h mi s 0);
      reflexivity. }
  rewrite !parse_entry_published_run. unfold timestamp_chain.
  cbn [e_published_parsed e_updated_parsed e_published].
  rewrite Hs. split; intros Hc; rewrite Hc.
  - destruct w; reflexivity.
  - reflexivity.
Qed.

Lemma parse_entry_published_breakdown_witness :
  parse_entry_published Demo.platform Demo.entry_text_only (mkworld [] 3)
  = parse_entry_published
      Demo.platform
      (mkentry (Some "Borealis Trust expands") (Some "https://x/5") None None
               (Some "2024-02-20 12:00")) (mkworld [] 3).
Proof.
  destruct (parse_entry_published_breakdown
              Demo.platform Demo.entry_text_only (mkworld [] 3)
              2024 13 1 0 0 0 [0; 1; 0] eq_refl) as [_ H].
  apply H. reflexivity.
Defined.

(** ** Stored texts against instants *)

Lemma compare_fields_eq (a b : datetime) :
  compare_fields a b = Eq -> tzinfo a = tzinfo b -> a = b.
Proof.
  unfold compare_fields. intros H Htz.
  destruct (Z.compare_spec (year a) (year b)); try discriminate H.
  destruct (Z.compare_spec (month a) (month b)); try discriminate H.
  destruct (Z.compare_spec (day a) (day b)); try discriminate H.
  destruct (Z.compare_spec (hour a) (hour b)); try discriminate H.
  destruct (Z.compare_spec (minute a) (minute b)); try discriminate H.
  destruct (Z.compare_spec (second a) (second b)); try discriminate H.
  destruct (Z.compare_spec (microsecond a) (microsecond b));
    try discriminate H.
  destruct a, b; simpl in *; congruence.
Qed.

(** X13. Comparing the stored texts is comparing the instants: for real
    calendar times of one time zone, [isoformat] gives texts whose byte
    order is the order of the instants, with and without a fraction of a
    second, and two different instants never share a text. *)
Theorem isoformat_order_is_time_order (a b : datetime) :
  valid a = true -> valid b = true -> tzinfo a = tzinfo b ->
  ((isoformat a <=? isoformat b)%string = true <-> compare_fields a b <> Gt)
  /\ ((isoformat a <? isoformat b)%string = true <-> compare_fields a b = Lt)
  /\ (isoformat a = isoformat b -> a = b).
Proof.
  intros Va Vb Htz.
  pose proof (DateTimeFacts.isoformat_compare a b Va Vb Htz) as H.
  split; [|split].
  - rewrite string_leb_compare, H. tauto.
  - unfold String.ltb. rewrite H.
    destruct (compare_fields a b); split; congruence.
  - intros E. apply compare_fields_eq; [|exact Htz].
    rewrite <- H, E. apply DateTimeFacts.string_compare_refl.
Qed.

Lemma isoformat_order_is_time_order_witness :
  (isoformat (mkdt 2024 1 1 12 0 0 0 (Some UTC))
   <? isoformat (mkdt 2024 1 1 12 0 0 1 (Some UTC)))%string = true
  <-> compare_fields (mkdt 2024 1 1 12 0 0 0 (Some UTC))
                     (mkdt 2024 1 1 12 0 0 1 (Some UTC)) = Lt.
Proof.
  apply (isoformat_order_is_time_order
           (mkdt 2024 1 1 12 0 0 0 (Some UTC))
           (mkdt 2024 1 1 12 0 0 1 (Some UTC))); reflexivity.
Defined.

(** ** What a fetch adds is in the window *)

Lemma valid_replace_tzinfo d t : valid (replace_tzinfo d t) = valid d.
Proof. reflexivity. Qed.

Lemma datetime_of_args_valid args d :
  datetime_of_args args = Ok d -> valid d = true.
Proof.
  unfold datetime_of_args.
  destruct args as [|y [|m [|dd rest]]]; try discriminate.
  destruct rest as [|h [|mi [|s [|us [|? ?]]]]]; try discriminate;
    intros H; apply datetime_new_ok in H; tauto.
Qed.

Lemma timestamp_chain_valid P e k d :
  valid_platform P -> fst (timestamp_chain P e k) = At d -> valid d = true.
Proof.
  intros [Hclock Htext]. unfold timestamp_chain.
  assert (Hs : forall v x, structured_time v = Some x -> valid x = true).
  { intros v x. unfold structured_time.
    destruct (truthy_tuple v) as [t|]; [|discriminate].
    destruct (datetime_of_args (firstn 6 t)) as [y|] eqn:E; [|discriminate].
    intros H. inversion H; subst.
    eapply datetime_of_args_valid; eassumption. }
  destruct (structured_time (e_published_parsed e)) as [x|] eqn:E1.
  { cbn [fst]. intros H. inversion H; subst. eapply Hs; eassumption. }
  destruct (structured_time (e_updated_parsed e)) as [x|] eqn:E2.
  { cbn [fst]. intros H. inversion H; subst. eapply Hs; eassumption. }
  unfold free_text_time.
  destruct (truthy_text (e_published e)) as [text|].
  - destruct (to_datetime P text) as [[x|]|] eqn:E3; cbn [fst]; intros H;
      inversion H; subst.
    + rewrite valid_replace_tzinfo. eapply Htext; eassumption.
    + rewrite valid_replace_tzinfo. apply Hclock.
  - cbn [fst]. intros H. inversion H; subst.
    rewrite valid_replace_tzinfo. apply Hclock.
Qed.

Lemma passing_entries_window P c fo es :
  valid_platform P -> valid c = true -> tzinfo c = Some UTC ->
  forall k a,
    In a (passed (passing_entries P c fo es k)) ->
    (isoformat c <=? art_published a)%string = true.
Proof.
  intros HP Vc Tc.
  induction es as [|e es IH]; intros k a Ha; [destruct Ha|].
  cbn [passing_entries] in Ha.
  pose proof (timestamp_chain_aware P e k) as Td.
  pose proof (timestamp_chain_valid P e k) as Vd.
  destruct (timestamp_chain P e k) as [[d|] k1]; cbn [fst] in Td, Vd;
    [|destruct Ha].
  specialize (Td d eq_refl). specialize (Vd d HP eq_refl).
  specialize (IH k1 a). cbv zeta in Ha.
  destruct (in_window c d) eqn:Ew; cbn [passed] in Ha; [|auto].
  destruct Ha as [<-|Ha]; [|auto].
  cbn [article_of art_published].
  apply string_leb_compare.
  rewrite DateTimeFacts.isoformat_compare by congruence.
  rewrite compare_fields_antisym. unfold in_window in Ew.
  destruct (compare_fields d c); simpl; congruence.
Qed.

Lemma passing_offices_window P c cap offices :
  valid_platform P -> valid c = true -> tzinfo c = Some UTC ->
  forall k a,
    In a (passed (passing_offices P c offices cap k)) ->
    (isoformat c <=? art_published a)%string = true.
Proof.
  intros HP Vc Tc.
  induction offices as [|fo rest IH]; intros k a Ha; [destruct Ha|].
  cbn [passing_offices] in Ha.
  destruct (bozo (feedparser_parse P k (feed_url fo))); [eauto|].
  pose proof (passing_entries_window P c fo
                (slice_to cap (entries (feedparser_parse P k (feed_url fo))))
                HP Vc Tc (S k) a) as He.
  cbv zeta in Ha.
  destruct (completed (passing_entries P c fo _ (S k))); [|auto].
  cbn [passed] in Ha. apply in_app_or in Ha. destruct Ha as [Ha|Ha]; eauto.
Qed.

(** X14. On a platform whose clock and text parser give real calendar
    times, every row a fetch adds, whether the fetch returns or ends in
    the exception of an entry dated [NaT], is in the window of the cutoff
    it ran with: the row's stored text is at or after the text of the
    cutoff, so a read with that cutoff selects it.  (An entry whose link
    was already stored adds no row; the row of that link keeps the date it
    was first stored with.) *)
Theorem fetch_news_google_adds_recent
        (P : platform) (g : globals) (offices : list string)
        (per_office : option Z) (w : world) :
  valid_platform P ->
  bound_at_load P g ->
  let run := passing_offices P (NEWS_CUTOFF_DATE g) offices
                             (with_default 20 per_office) (tick w) in
  let w' := snd (fetch_news_google P g offices per_office w) in
  fetch_news_google P g offices per_office w = outcome [] (news w) run
  /\ forall r, In r (news w') ->
               In r (news w) \/ In r (recent_rows g (news w')).
Proof.
  intros HP Hg. apply bound_at_load_cutoff in Hg. destruct Hg as [Tc Vc].
  cbv zeta. unfold fetch_news_google. rewrite (fetch_offices_run P g _ Tc).
  split; [reflexivity|]. unfold outcome. cbn [snd news].
  intros r Hr. pose proof Hr as Hr'. apply store_all_origin in Hr'.
  destruct Hr' as [Hr'|(a & Ha & E)]; [now left|].
  right. unfold recent_rows. apply filter_In. split; [exact Hr|].
  apply (passing_offices_window P _ _ _ HP Vc Tc) in Ha.
  rewrite <- E in Ha. exact Ha.
Qed.

Lemma demo_platform_valid : valid_platform Demo.platform.
Proof.
  split.
  - intros k. unfold Demo.platform, Demo.clock, valid.
    cbn [clock year month day hour minute second microsecond].
    change (check_date_fields 2024 3 1) with true.
    unfold check_time_fields.
    pose proof (Z.mod_pos_bound (Z.of_nat k / 60) 60 ltac:(lia)).
    pose proof (Z.mod_pos_bound (Z.of_nat k) 60 ltac:(lia)).
    rewrite !andb_true_iff, !Z.leb_le. lia.
  - intros text d. unfold Demo.platform, Demo.to_datetime. cbn.
    repeat (destruct (String.eqb text _);
            [intros H; inversion H; reflexivity|]).
    discriminate.
Defined.

Lemma fetch_news_google_adds_recent_witness :
  let w' := snd (fetch_news_google Demo.platform Demo.globals
                                   ["Acme Capital"; "Nan Holdings"] None
                                   (mkworld [Demo.row_just_older] 1)) in
  fst (fetch_news_google Demo.platform Demo.globals
                         ["Acme Capital"; "Nan Holdings"] None
                         (mkworld [Demo.row_just_older] 1))
  = Raise ValueError
  /\ forall r, In r (news w') ->
               In r [Demo.row_just_older]
               \/ In r (recent_rows Demo.globals (news w')).
Proof.
  destruct (fetch_news_google_adds_recent
              Demo.platform Demo.globals ["Acme Capital"; "Nan Holdings"]
              None (mkworld [Demo.row_just_older] 1)
              demo_platform_valid demo_globals_bound) as [E H].
  split; [rewrite E; reflexivity|exact H].
Defined.

(** ** The cutoff, sixty days back *)

Lemma month_day_checked (leapyear : bool) :
  forallb (month_day_ok leapyear) (map Z.of_nat (seq 0 (if leapyear then 366 else 365))) = true.
Proof. destruct leapyear; vm_compute; reflexivity. Qed.

Lemma month_day_spec (leapyear : bool) (n : Z) :
  0 <= n < (if leapyear then 366 else 365) -> month_day_ok leapyear n = true.
Proof.
  intros Hn. pose proof (month_day_checked leapyear) as H.
  rewrite forallb_forall in H. apply H.
  apply in_map_iff. exists (Z.to_nat n). split; [lia|].
  apply in_seq. destruct leapyear; lia.
Qed.

Lemma year_part n0 :
  1 <= n0 <= MAXORDINAL ->
  let n := n0 - 1 in
  let n400 := n / DI400Y in
  let r400 := n mod DI400Y in
  let n100 := r400 / DI100Y in
  let r100 := r400 mod DI100Y in
  let n4 := r100 / DI4Y in
  let r4 := r100 mod DI4Y in
  let n1 := r4 / 365 in
  let r1 := r4 mod 365 in
  0 <= n400 <= 24 /\ 0 <= n100 <= 4 /\ 0 <= n4 <= 24 /\ 0 <= n1 <= 4 /\ 0 <= r1 < 365 /\
  n = n400 * 146097 + n100 * 36524 + n4 * 1461 + n1 * 365 + r1 /\
  (n100 = 4 -> n4 = 0 /\ n1 = 0 /\ r1 = 0) /\
  (n1 = 4 -> r1 = 0 /\ n4 <= 23) /\
  n400 * 400 + n100 * 100 + n4 * 4 + n1 <= 9999 /\
  (n1 <= 3 -> n100 <= 3 -> n400 * 400 + n100 * 100 + n4 * 4 + n1 <= 9998).
Proof.
  unfold MAXORDINAL, DI400Y, DI100Y, DI4Y. intros Hn. cbv zeta.
  Z.to_euclidean_division_equations; lia.
Qed.

Lemma ord2ymd_unfold n0 :
  ord2ymd n0 =
  let n := n0 - 1 in
  let n400 := n / DI400Y in
  let r400 := n mod DI400Y in
  let n100 := r400 / DI100Y in
  let r100 := r400 mod DI100Y in
  let n4 := r100 / DI4Y in
  let r4 := r100 mod DI4Y in
  let n1 := r4 / 365 in
  let r1 := r4 mod 365 in
  let y := n400 * 400 + 1 + n100 * 100 + n4 * 4 + n1 in
  if (n1 =? 4) || (n100 =? 4) then (y - 1, 12, 31)
  else
    let '(m, d) := month_day r1 ((n1 =? 3) && (negb (n4 =? 24) || (n100 =? 3))) in
    (y, m, d).
Proof.
  unfold ord2ymd, month_day. cbv zeta.
  destruct ((_ =? 4) || (_ =? 4)); [reflexivity|].
  match goal with |- context [if ?c then _ else _] => destruct c end; reflexivity.
Qed.

Lemma is_leap_year_part (a b c d : Z) :
  0 <= a -> 0 <= b <= 3 -> 0 <= c <= 24 -> 0 <= d <= 3 ->
  is_leap (a * 400 + 1 + b * 100 + c * 4 + d)
  = (d =? 3) && (negb (c =? 24) || (b =? 3)).
Proof.
  intros. unfold is_leap.
  destruct (Z.eqb_spec d 3), (Z.eqb_spec c 24), (Z.eqb_spec b 3);
    destruct (Z.eqb_spec ((a * 400 + 1 + b * 100 + c * 4 + d) mod 4) 0);
    destruct (Z.eqb_spec ((a * 400 + 1 + b * 100 + c * 4 + d) mod 100) 0);
    destruct (Z.eqb_spec ((a * 400 + 1 + b * 100 + c * 4 + d) mod 400) 0);
    try reflexivity; exfalso;
    Z.to_euclidean_division_equations; lia.
Qed.

Lemma days_before_year_part (a b c d : Z) :
  0 <= a -> 0 <= b <= 3 -> 0 <= c <= 24 -> 0 <= d <= 3 ->
  days_before_year (a * 400 + 1 + b * 100 + c * 4 + d)
  = a * 146097 + b * 36524 + c * 1461 + d * 365.
Proof.
  intros. unfold days_before_year. cbv zeta.
  Z.to_euclidean_division_equations; lia.
Qed.

Lemma last_day_of_leap_year (a b c d : Z) :
  0 <= a ->
  (b = 4 /\ c = 0 /\ d = 0) \/ (0 <= b <= 3 /\ 0 <= c <= 23 /\ d = 4) ->
  is_leap (a * 400 + 1 + b * 100 + c * 4 + d - 1) = true
  /\ days_before_year (a * 400 + 1 + b * 100 + c * 4 + d - 1) + 366
     = a * 146097 + b * 36524 + c * 1461 + d * 365 + 1.
Proof.
  intros Ha Hcase. split.
  - unfold is_leap.
    destruct (Z.eqb_spec ((a * 400 + 1 + b * 100 + c * 4 + d - 1) mod 4) 0);
    destruct (Z.eqb_spec ((a * 400 + 1 + b * 100 + c * 4 + d - 1) mod 100) 0);
    destruct (Z.eqb_spec ((a * 400 + 1 + b * 100 + c * 4 + d - 1) mod 400) 0);
    try reflexivity; exfalso;
    Z.to_euclidean_division_equations; lia.
  - unfold days_before_year. cbv zeta.
    Z.to_euclidean_division_equations; lia.
Qed.

Lemma ord2ymd_correct n0 :
  1 <= n0 <= MAXORDINAL ->
  check_date_fields (fst (fst (ord2ymd n0))) (snd (fst (ord2ymd n0)))
                    (snd (ord2ymd n0)) = true
  /\ ymd2ord (fst (fst (ord2ymd n0))) (snd (fst (ord2ymd n0)))
             (snd (ord2ymd n0)) = n0.
Proof.
  intros Hn. rewrite ord2ymd_unfold. pose proof (year_part n0 Hn) as Hy.
  cbv zeta in *.
  set (n400 := (n0 - 1) / DI400Y) in *.
  set (r400 := (n0 - 1) mod DI400Y) in *.
  set (n100 := r400 / DI100Y) in *.
  set (r100 := r400 mod DI100Y) in *.
  set (n4 := r100 / DI4Y) in *.
  set (r4 := r100 mod DI4Y) in *.
  set (n1 := r4 / 365) in *.
  set (r1 := r4 mod 365) in *.
  destruct Hy as (H400 & H100 & H4 & H1 & Hr & Hsum & Hc & Hd & Hmax & Hmax').
  assert (Hcase : (n1 = 4 \/ n100 = 4) \/ (n1 <= 3 /\ n100 <= 3)) by lia.
  destruct Hcase as [Hsp|[Hn1 Hn100]].
  - replace ((n1 =? 4) || (n100 =? 4)) with true
      by (symmetry; apply orb_true_iff; rewrite !Z.eqb_eq; exact Hsp).
    cbn [fst snd].
    destruct (last_day_of_leap_year n400 n100 n4 n1 ltac:(lia)) as [Hleap Hdays].
    { destruct Hsp as [E|E]; [right|left]; [destruct (Hd E)|destruct (Hc E)]; lia. }
    assert (Hpos : 1 <= n400 * 400 + 1 + n100 * 100 + n4 * 4 + n1 - 1)
      by (destruct Hsp as [E|E]; [|destruct (Hc E)]; lia).
    unfold check_date_fields, ymd2ord, MINYEAR, MAXYEAR.
    change (days_in_month (n400 * 400 + 1 + n100 * 100 + n4 * 4 + n1 - 1) 12)
      with 31.
    change (days_before_month (n400 * 400 + 1 + n100 * 100 + n4 * 4 + n1 - 1) 12)
      with (334 + (if is_leap (n400 * 400 + 1 + n100 * 100 + n4 * 4 + n1 - 1)
                   then 1 else 0)).
    rewrite Hleap.
    split; [|lia].
    rewrite !andb_true_iff, !Z.leb_le. lia.
  - replace ((n1 =? 4) || (n100 =? 4)) with false
      by (symmetry; apply orb_false_iff; rewrite !Z.eqb_neq; lia).
    pose proof (is_leap_year_part n400 n100 n4 n1 ltac:(lia) ltac:(lia)
                  ltac:(lia) ltac:(lia)) as Hleap.
    pose proof (days_before_year_part n400 n100 n4 n1 ltac:(lia) ltac:(lia)
                  ltac:(lia) ltac:(lia)) as Hdays.
    set (leapyear := (n1 =? 3) && (negb (n4 =? 24) || (n100 =? 3))) in *.
    pose proof (month_day_spec leapyear r1) as Hmd.
    assert (Hr1 : 0 <= r1 < (if leapyear then 366 else 365))
      by (destruct leapyear; lia).
    specialize (Hmd Hr1). unfold month_day_ok in Hmd.
    destruct (month_day r1 leapyear) as [m d]. cbn [fst snd].
    rewrite !andb_true_iff, !Z.leb_le, Z.eqb_eq in Hmd.
    destruct Hmd as ((((Hm1 & Hm2) & Hd1) & Hd2) & Hsum').
    unfold check_date_fields, ymd2ord, days_in_month, days_before_month,
      MINYEAR, MAXYEAR.
    rewrite Hleap, Hdays.
    split; [|lia].
    rewrite !andb_true_iff, !Z.leb_le. lia.
Qed.

Lemma days_before_year_bounds y :
  1 <= y <= 9999 ->
  0 <= days_before_year y <= 3651694 /\ (2 <= y -> 365 <= days_before_year y).
Proof.
  intros Hy. unfold days_before_year. cbv zeta.
  Z.to_euclidean_division_equations; lia.
Qed.

Lemma days_before_month_bounds y m :
  1 <= m <= 12 -> 0 <= days_before_month y m <= 335.
Proof.
  intros Hm. unfold days_before_month.
  assert (Em : m = 1 \/ m = 2 \/ m = 3 \/ m = 4 \/ m = 5 \/ m = 6 \/ m = 7
               \/ m = 8 \/ m = 9 \/ m = 10 \/ m = 11 \/ m = 12) by lia.
  repeat (destruct Em as [Em|Em];
          [subst m; destruct (is_leap y); vm_compute; split; discriminate|]).
  subst m; destruct (is_leap y); vm_compute; split; discriminate.
Qed.

Lemma valid_date_ordinal d :
  valid d = true ->
  1 <= ymd2ord (year d) (month d) (day d) <= MAXORDINAL + 1
  /\ (2 <= year d -> 366 <= ymd2ord (year d) (month d) (day d)).
Proof.
  intros V. apply DateTimeFacts.valid_fields in V.
  destruct V as (Hy & Hm & Hd & _).
  pose proof (days_before_year_bounds (year d) Hy) as [Hby Hby2].
  pose proof (days_before_month_bounds (year d) (month d) Hm) as Hbm.
  unfold ymd2ord, MAXORDINAL. lia.
Qed.

Lemma sub_days_total d n :
  valid d = true ->
  1 <= n < ymd2ord (year d) (month d) (day d) ->
  exists c,
    sub_days d n = Ok c
    /\ valid c = true /\ tzinfo c = tzinfo d
    /\ hour c = hour d /\ minute c = minute d /\ second c = second d
    /\ microsecond c = microsecond d
    /\ ymd2ord (year c) (month c) (day c)
       = ymd2ord (year d) (month d) (day d) - n.
Proof.
  intros V Hn. pose proof (valid_date_ordinal d V) as [Hord _].
  unfold sub_days.
  set (days := ymd2ord (year d) (month d) (day d) - n) in *.
  assert (Hdays : 1 <= days <= MAXORDINAL) by (unfold days; lia).
  replace ((0 <? days) && (days <=? MAXORDINAL)) with true
    by (symmetry; apply andb_true_iff; rewrite Z.ltb_lt, Z.leb_le; lia).
  pose proof (ord2ymd_correct days Hdays) as [Hcheck Hback].
  destruct (ord2ymd days) as [[y m] dd]. cbn [fst snd] in *.
  unfold datetime_new. rewrite Hcheck.
  assert (Ht : check_time_fields (hour d) (minute d) (second d) (microsecond d)
               = true).
  { unfold valid in V. apply andb_true_iff in V. tauto. }
  rewrite Ht. cbn [andb].
  eexists. split; [reflexivity|]. cbn.
  unfold valid. cbn. rewrite Hcheck, Ht. repeat split. exact Hback.
Qed.

Lemma load_globals_cutoff_exists (P : platform) (w : world) :
  valid (clock P (tick w)) = true ->
  2 <= year (clock P (tick w)) ->
  exists c, sub_days (replace_tzinfo (clock P (tick w)) (Some UTC)) 60 = Ok c.
Proof.
  intros V Hy.
  set (now := replace_tzinfo (clock P (tick w)) (Some UTC)).
  assert (Vnow : valid now = true) by exact V.
  pose proof (valid_date_ordinal now Vnow) as [_ Hord].
  destruct (sub_days_total now 60 Vnow) as (c & Hc & _).
  { specialize (Hord Hy). lia. }
  exists c. exact Hc.
Qed.

(** X15. Whenever the clock shows a real calendar time from year 2 on,
    the script's top level binds a cutoff without raising: a real calendar
    time in UTC, with the time of day of the current instant, on the day
    that lies exactly 60 days before the current day. *)
Theorem load_globals_sixty_days_back (P : platform) (w : world) :
  valid (clock P (tick w)) = true ->
  2 <= year (clock P (tick w)) ->
  exists g,
    load_globals P w = (Ok g, mkworld (news w) (S (tick w)))
    /\ valid (NEWS_CUTOFF_DATE g) = true
    /\ tzinfo (NEWS_CUTOFF_DATE g) = Some UTC
    /\ hour (NEWS_CUTOFF_DATE g) = hour (clock P (tick w))
    /\ minute (NEWS_CUTOFF_DATE g) = minute (clock P (tick w))
    /\ second (NEWS_CUTOFF_DATE g) = second (clock P (tick w))
    /\ microsecond (NEWS_CUTOFF_DATE g) = microsecond (clock P (tick w))
    /\ ymd2ord (year (NEWS_CUTOFF_DATE g)) (month (NEWS_CUTOFF_DATE g))
               (day (NEWS_CUTOFF_DATE g))
       = ymd2ord (year (clock P (tick w))) (month (clock P (tick w)))
                 (day (clock P (tick w))) - 60.
Proof.
  intros V Hy.
  set (now := replace_tzinfo (clock P (tick w)) (Some UTC)).
  assert (Vnow : valid now = true) by exact V.
  pose proof (valid_date_ordinal now Vnow) as [_ Hord].
  destruct (sub_days_total now 60 Vnow) as (c & Hc & Hrest).
  { specialize (Hord Hy). lia. }
  exists (mkglobals c).
  unfold load_globals, bind, datetime_now_utc, lift, ret.
  fold now. rewrite Hc. split; [reflexivity|]. exact Hrest.
Qed.

Lemma load_globals_sixty_days_back_witness :
  exists g,
    load_globals Demo.platform (mkworld [] 0) = (Ok g, mkworld [] 1)
    /\ ymd2ord (year (NEWS_CUTOFF_DATE g)) (month (NEWS_CUTOFF_DATE g))
               (day (NEWS_CUTOFF_DATE g))
       = ymd2ord 2024 3 1 - 60.
Proof.
  destruct (load_globals_sixty_days_back Demo.platform (mkworld [] 0))
    as (g & E & _ & _ & _ & _ & _ & _ & H).
  - reflexivity.
  - simpl. lia.
  - exists g. split; [exact E|exact H].
Defined.

Lemma script_run (P : platform) (ui : ui_input) (w : world) (c : datetime) :
  sub_days (replace_tzinfo (clock P (tick w)) (Some UTC)) 60 = Ok c ->
  let w1 := mkworld (if clear_clicked ui then [] else news w) (S (tick w)) in
  let run := passing_offices P c (tracked_offices ui) 20 (S (tick w)) in
  script P ui w
  = if fetch_clicked ui
    then (if completed run
          then Ok (sql_select_recent (isoformat c) 200
                                     (store_all (news w1) (passed run)))
          else Raise ValueError,
          mkworld (store_all (news w1) (passed run)) (ended_at run))
    else (Ok (sql_select_recent (isoformat c) 200 (news w1)), w1).
Proof.
  intros Hc.
  assert (Tc : tzinfo (NEWS_CUTOFF_DATE (mkglobals c)) = Some UTC).
  { apply sub_days_ok in Hc. destruct Hc as [Hc _]. exact Hc. }
  cbv zeta.
  set (w1 := mkworld (if clear_clicked ui then [] else news w) (S (tick w))).
  assert (Hhead : script P ui w
                  = bind (if fetch_clicked ui
                          then bind (fetch_news_google P (mkglobals c)
                                       (tracked_offices ui) None)
                                    (fun _ => ret tt)
                          else ret tt)
                         (fun _ => fetch_all_news (mkglobals c) (Some 200)) w1).
  { unfold script, load_globals.
    unfold bind at 1. unfold bind at 1. unfold datetime_now_utc at 1.
    unfold bind at 1, lift at 1. rewrite Hc. unfold ret at 1.
    unfold bind at 1, init_db, ret at 1.
    unfold bind at 1. unfold w1.
    destruct (clear_clicked ui); reflexivity. }
  rewrite Hhead. destruct (fetch_clicked ui); [|reflexivity].
  unfold bind at 1. unfold bind at 1. unfold fetch_news_google.
  rewrite (fetch_offices_run P (mkglobals c) _ Tc). unfold outcome.
  cbn [with_default NEWS_CUTOFF_DATE tick news w1].
  destruct (completed (passing_offices P c (tracked_offices ui) 20
                                       (S (tick w)))); reflexivity.
Qed.

Lemma sql_select_recent_length cutoff_iso t :
  (List.length (sql_select_recent cutoff_iso 200 t) <= 200)%nat.
Proof.
  pose proof (sql_limit_length 200
                (order_by_published_desc
                   (filter (fun r => (cutoff_iso <=? published r)%string) t))
                ltac:(lia)) as H.
  unfold sql_select_recent. lia.
Qed.

(** X16. With a clock that shows real calendar times from year 2 on, a
    run of the script ends in one of two ways, whatever the provider
    answers and whatever the page's widgets hold: it shows at most 200
    rows, or, only when a fetch was asked for, it ends in the [ValueError]
    of an entry dated [NaT].  Without a fetch, or with a text parser that
    never answers [NaT], it always comes to its end and shows at most 200
    rows. *)
Theorem script_raises_only_value_error (P : platform) :
  (forall k, valid (clock P k) = true /\ 2 <= year (clock P k)) ->
  forall ui w,
    ((exists rows w',
         script P ui w = (Ok rows, w') /\ (List.length rows <= 200)%nat)
     \/ (fetch_clicked ui = true
         /\ exists w', script P ui w = (Raise ValueError, w')))
    /\ (fetch_clicked ui = false \/ never_nat P ->
        exists rows w',
          script P ui w = (Ok rows, w') /\ (List.length rows <= 200)%nat).
Proof.
  intros Hclock ui w.
  destruct (Hclock (tick w)) as [V Hy].
  destruct (load_globals_cutoff_exists P w V Hy) as (c & Hc).
  pose proof (script_run P ui w c Hc) as E. cbv zeta in E.
  destruct (fetch_clicked ui) eqn:Ef.
  - destruct (completed (passing_offices P c (tracked_offices ui) 20
                                         (S (tick w)))) eqn:Ec.
    + assert (Hok : exists rows w',
                 script P ui w = (Ok rows, w')
                 /\ (List.length rows <= 200)%nat).
      { eexists. eexists. split; [exact E|].
        apply sql_select_recent_length. }
      split; [left; exact Hok|intros _; exact Hok].
    + split.
      * right. split; [reflexivity|]. eexists. exact E.
      * intros [Hf|Hn]; [discriminate Hf|].
        rewrite (passing_offices_completed P c 20 (tracked_offices ui) Hn)
          in Ec.
        discriminate Ec.
  - assert (Hok : exists rows w',
               script P ui w = (Ok rows, w') /\ (List.length rows <= 200)%nat).
    { eexists. eexists. split; [exact E|]. apply sql_select_recent_length. }
    split; [left; exact Hok|intros _; exact Hok].
Qed.

Lemma script_raises_only_value_error_witness :
  exists rows w',
    script Demo.platform (mkui "Acme Capital" false true)
           (mkworld [Demo.row_just_older] 0) = (Ok rows, w')
    /\ (List.length rows <= 200)%nat.
Proof.
  destruct (script_raises_only_value_error Demo.platform) with
    (ui := mkui "Acme Capital" false true)
    (w := mkworld [Demo.row_just_older] 0) as [_ H].
  - intros k. split; [apply demo_platform_valid|]. simpl. lia.
  - apply H. left. reflexivity.
Defined.

(** ** The table the page shows *)

Lemma map_combine_map {A B C D : Type} (f : A -> B) (h : B -> C)
      (k : B * C -> D) (l : list A) :
  map k (combine (map f l) (map h (map f l)))
  = map (fun a => k (f a, h (f a))) l.
Proof. induction l as [|a l IH]; simpl; [reflexivity|now rewrite IH]. Qed.

(** X17. Of the table read from [news], [df_with_clickable_links] with the
    default link column makes the table the page shows: the five columns
    family office, title, article, published and source, in this order, one
    record for each row and in the same order; the row id and the bare link
    are gone, and the article cell is an anchor on the row's link, with the
    given label, or empty when the row has no link. *)
Theorem df_with_clickable_links_read_frame
        (rows : list row) (link_label : string) :
  df_with_clickable_links (read_frame rows) None (Some link_label)
  = Some (mkdf ["family_office"; "title"; "article"; "published"; "source"]
               (map (fun r =>
                       [Text (family_office r); Text (title r);
                        (if nonempty (link r)
                         then Text ("<a href=" ++ dquote ++ link r ++ dquote
                                    ++ " target=" ++ dquote ++ "_blank"
                                    ++ dquote ++ ">" ++ link_label ++ "</a>")
                         else Text "");
                        Text (published r); Text (source r)])
                    rows)).
Proof.
  unfold df_with_clickable_links, read_frame.
  cbn [with_default df_columns df_records column_index String.eqb Ascii.eqb
       Bool.eqb].
  cbv zeta. unfold assign_column.
  cbn [df_columns df_records column_index String.eqb Ascii.eqb Bool.eqb app
       filter existsb orb].
  unfold select_columns. cbn [df_columns df_records]. f_equal. f_equal.
  rewrite map_combine_map, map_map. apply map_ext. intros r. reflexivity.
Qed.

Lemma column_index_In name columns :
  column_index name columns = None <-> ~ In name columns.
Proof.
  induction columns as [|c columns IH]; simpl; [tauto|].
  destruct (String.eqb_spec c name) as [E|E].
  - split; [discriminate|]. intros H. exfalso. apply H. now left.
  - destruct (column_index name columns) as [i|].
    + split; [discriminate|]. intros H.
      assert (Hnot : ~ In name columns) by tauto.
      apply IH in Hnot. discriminate Hnot.
    + split; [|reflexivity]. intros _ [H|H]; [contradiction|].
      apply (proj1 IH); [reflexivity|exact H].
Qed.

Lemma some_eq {A : Type} (a b : A) : Some a = Some b -> a = b.
Proof. congruence. Qed.

Lemma select_columns_columns cols df :
  df_columns (select_columns cols df) = cols.
Proof. reflexivity. Qed.

Lemma select_columns_length cols df :
  List.length (df_records (select_columns cols df))
  = List.length (df_records df).
Proof. unfold select_columns. cbn [df_records]. apply length_map. Qed.

Lemma assign_column_length name values df :
  List.length values = List.length (df_records df) ->
  List.length (df_records (assign_column name values df))
  = List.length (df_records df).
Proof.
  intros H. unfold assign_column.
  destruct (column_index name (df_columns df)); cbn [df_records];
    rewrite length_map, length_combine; lia.
Qed.

Lemma assign_column_has name values df :
  In name (df_columns (assign_column name values df)).
Proof.
  unfold assign_column.
  destruct (column_index name (df_columns df)) eqn:E; cbn [df_columns].
  - destruct (In_dec string_dec name (df_columns df)) as [Hin|Hin];
      [exact Hin|].
    apply column_index_In in Hin. congruence.
  - apply in_or_app. right. now left.
Qed.

(** X18. [df_with_clickable_links] fails (with the [KeyError] of
    [df[link_col]]) exactly on a frame without the link column.  On every
    other frame it returns a frame with as many records, with an article
    column, and with no column but the five the page shows. *)
Theorem df_with_clickable_links_columns
        (df : dataframe) (link_col link_label : option string) :
  (df_with_clickable_links df link_col link_label = None
   <-> ~ In (with_default "link" link_col) (df_columns df))
  /\ forall out,
       df_with_clickable_links df link_col link_label = Some out ->
       List.length (df_records out) = List.length (df_records df)
       /\ In "article" (df_columns out)
       /\ incl (df_columns out)
               ["family_office"; "title"; "article"; "published"; "source"].
Proof.
  unfold df_with_clickable_links. split.
  - rewrite <- column_index_In.
    destruct (column_index (with_default "link" link_col) (df_columns df));
      split; congruence.
  - intros out.
    destruct (column_index (with_default "link" link_col) (df_columns df))
      as [i|]; [|discriminate].
    cbv zeta. intros H. apply some_eq in H. rewrite <- H. clear H out.
    split; [|split].
    + rewrite select_columns_length. apply assign_column_length.
      apply length_map.
    + rewrite select_columns_columns.
      apply filter_In. split; [simpl; tauto|].
      apply existsb_exists. exists "article". split; [|reflexivity].
      apply assign_column_has.
    + rewrite select_columns_columns.
      intros c Hc. apply filter_In in Hc. tauto.
Qed.

(** ** Saving and reading back *)

Lemma next_rowid_fresh t x : In x t -> id x < next_rowid t.
Proof.
  unfold next_rowid. induction t as [|y t IH]; simpl; [tauto|].
  intros [->|H]; [lia|]. specialize (IH H). lia.
Qed.

(** X19. A save of a link the table does not hold adds one row, with the
    five values given and a row id above every row id of the table.  If
    its published text is at or after the text of the cutoff, a read whose
    limit does not cut the result short returns the row; if it is before,
    no read returns a row with that link. *)
Theorem save_article_then_read
        (g : globals) (limit : option Z) (fo ttl lnk pub src : string)
        (w : world) :
  link_taken lnk (news w) = false ->
  exists w',
    save_article fo ttl lnk pub src w = (Ok tt, w')
    /\ news w' = news w ++ [mkrow (next_rowid (news w)) fo ttl lnk pub src]
    /\ (forall x, In x (news w) -> id x < next_rowid (news w))
    /\ ((isoformat (NEWS_CUTOFF_DATE g) <=? pub)%string = true ->
        with_default 100 limit < 0
        \/ Z.of_nat (List.length (recent_rows g (news w')))
           <= with_default 100 limit ->
        exists rows,
          fetch_all_news g limit w' = (Ok rows, w')
          /\ In (mkrow (next_rowid (news w)) fo ttl lnk pub src) rows)
    /\ ((isoformat (NEWS_CUTOFF_DATE g) <=? pub)%string = false ->
        forall rows w'',
          fetch_all_news g limit w' = (Ok rows, w'') ->
          forall x, In x rows -> link x <> lnk).
Proof.
  intros Hfree. rewrite save_article_run. eexists. split; [reflexivity|].
  cbn [news]. unfold store. cbn [art_link art_family_office art_title
                                  art_published art_source].
  rewrite Hfree.
  split; [reflexivity|]. split; [apply next_rowid_fresh|]. split.
  - intros Hpub Hlimit. eexists. split; [reflexivity|].
    unfold sql_select_recent. cbn [news].
    fold (recent_rows g (news w ++ [mkrow (next_rowid (news w)) fo ttl lnk pub src])).
    rewrite sql_limit_all
      by (rewrite order_by_published_desc_length; exact Hlimit).
    apply order_by_published_desc_In. unfold recent_rows. apply filter_In.
    split; [apply in_or_app; right; now left|exact Hpub].
  - intros Hpub rows w'' Hread x Hx Hlink.
    assert (Hrows : rows
                    = sql_select_recent (isoformat (NEWS_CUTOFF_DATE g))
                        (with_default 100 limit)
                        (news w ++ [mkrow (next_rowid (news w)) fo ttl lnk pub src]))
      by (unfold fetch_all_news in Hread; cbn [news] in Hread; congruence).
    subst rows. unfold sql_select_recent in Hx.
    apply sql_limit_incl in Hx.
    apply (proj1 (order_by_published_desc_In _ _)) in Hx.
    apply (proj1 (filter_In _ _ _)) in Hx. destruct Hx as [Hx Hwin].
    apply in_app_or in Hx. destruct Hx as [Hx|[<-|[]]].
    + assert (link_taken lnk (news w) = true)
        by (apply link_taken_In; eauto).
      congruence.
    + cbn [published] in Hwin. congruence.
Qed.

Lemma save_article_then_read_witness :
  exists w',
    save_article "Acme Capital" "Acme Capital hires" "https://x/3"
                 "2024-02-20T12:00:00+00:00" "Google News"
                 (mkworld [Demo.row_5_days] 2) = (Ok tt, w')
    /\ exists rows,
         fetch_all_news Demo.globals None w' = (Ok rows, w')
         /\ In (mkrow 2 "Acme Capital" "Acme Capital hires" "https://x/3"
                      "2024-02-20T12:00:00+00:00" "Google News") rows.
Proof.
  destruct (save_article_then_read
              Demo.globals None "Acme Capital" "Acme Capital hires"
              "https://x/3" "2024-02-20T12:00:00+00:00" "Google News"
              (mkworld [Demo.row_5_days] 2) eq_refl)
    as (w' & E & Hnews & _ & Hin & _).
  exists w'. split; [exact E|].
  apply Hin; [reflexivity|].
  right. rewrite Hnews. vm_compute. discriminate.
Defined.
